(** * Mersenne31 notebook: prime field and quartic tower extension

    A shallow embedding of the two Python classes of
    [Mersenne31/Mersenne31.ipynb], [FieldElement] and
    [ExtendedFieldElement], together with their toy instances
    [BabyMersenneElement] (modulus 7) and [ExtendedBabyMersenneElement]
    (tower constant 4), followed by the properties stated about them.

    Python integers are [Z]; [%] and [//] on a positive modulus are
    [Z.modulo] and [Z.div] (both floor).  A method that can raise returns
    in the error monad [result]; a method that cannot is a plain
    function. *)

From Stdlib Require Import ZArith List Bool Lia.
From Stdlib Require Import Strings.Byte.
From Stdlib Require Import Zdivisibility Zcong Zmod.ZmodInv.
From Stdlib Require Import Setoid Morphisms.
Import ListNotations.

#[local] Open Scope Z_scope.
#[local] Set Warnings "-register-all".

(* ===================================================================== *)
(** ** Exceptions and the error monad *)

(** The Python exceptions the modelled code can raise.  [Exception_] is
    the bare [Exception("Incompatible value: ...")] of [_to_list]. *)
Inductive exn : Set :=
| Exception_ (* raise Exception("Incompatible value: {}") *)
| TypeError
| ValueError
| IndexError
| AssertionError
| OverflowError
| RecursionError.

Inductive result (A : Type) : Type :=
| Ok (a : A)
| Raise (e : exn).

Arguments Ok {A} a.
Arguments Raise {A} e.

Definition bind {A B : Type} (c : result A) (k : A -> result B) : result B :=
  match c with
  | Ok a => k a
  | Raise e => Raise e
  end.

Declare Scope py_scope.
Delimit Scope py_scope with py.
Notation "x <- c ;; k" := (bind c (fun x => k))
  (at level 61, c at next level, right associativity) : py_scope.
Notation "' p <- c ;; k" := (bind c (fun x => let p := x in k))
  (at level 61, p pattern, c at next level, right associativity) : py_scope.
#[local] Open Scope py_scope.

(** A list comprehension whose body can raise: left to right, the first
    exception wins. *)
Fixpoint mapM {A B : Type} (f : A -> result B) (l : list A) : result (list B) :=
  match l with
  | [] => Ok []
  | a :: t => b <- f a ;; bs <- mapM f t ;; Ok (b :: bs)
  end.

(* ===================================================================== *)
(** ** Python builtins used by the classes *)

Module Builtins.

(** [pow(b, e, m)], three arguments.  A zero modulus is a [ValueError];
    a negative exponent first inverts [b] modulo [m] (extended Euclid)
    and is a [ValueError] when [b] is not invertible. *)
Definition pow3 (b e m : Z) : result Z :=
  if m =? 0 then Raise ValueError
  else if e <? 0 then
    if Z.gcd b m =? 1 then Ok ((Z.invmod b m) ^ (- e) mod m)
    else Raise ValueError
  else Ok (b ^ e mod m).

Definition byte_of_Z (z : Z) : byte :=
  match Byte.of_N (Z.to_N z) with
  | Some b => b
  | None => x00
  end.

Definition Z_of_byte (b : byte) : Z := Z.of_N (Byte.to_N b).

(** The [len] low base-256 digits of [n], least significant first. *)
Fixpoint le_digits (len : nat) (n : Z) : list byte :=
  match len with
  | O => []
  | S k => byte_of_Z (n mod 256) :: le_digits k (n / 256)
  end.

(** [n.to_bytes(len, 'little')]: unsigned, so a negative [n] or one that
    does not fit in [len] bytes is an [OverflowError]. *)
Definition int_to_bytes (n : Z) (len : nat) : result (list byte) :=
  if (n <? 0) || (256 ^ Z.of_nat len <=? n) then Raise OverflowError
  else Ok (le_digits len n).

(** [int.from_bytes(bytez, 'little')], any length, empty gives 0. *)
Fixpoint int_from_bytes (bytez : list byte) : Z :=
  match bytez with
  | [] => 0
  | b :: t => Z_of_byte b + 256 * int_from_bytes t
  end.

(** The slice [l[i:j]] for [0 <= i <= j]. *)
Definition slice {A : Type} (l : list A) (i j : nat) : list A :=
  firstn (j - i) (skipn i l).

End Builtins.

(* ===================================================================== *)
(** ** class FieldElement *)

Module FieldElement.

(** An instance holds one attribute, [value]; [modulus] is a class
    attribute, fixed by the subclass. *)
Record t : Set := mk { value : Z }.

(** The [other] argument of the arithmetic methods: tested with
    [isinstance(other, int)], otherwise read through [other.value]. *)
Inductive operand : Set :=
| OInt (n : Z)
| OElem (b : t).

Section Methods.
Variable modulus : Z.

Definition othervalue (other : operand) : Z :=
  match other with
  | OInt n => n
  | OElem b => value b
  end.

(** [__init__]: an instance argument is unwrapped, then the value is
    stored modulo the modulus. *)
Definition __init__ (v : operand) : t :=
  mk (othervalue v mod modulus).

Definition of_int (n : Z) : t := __init__ (OInt n).

Definition __add__ (self : t) (other : operand) : t :=
  of_int ((value self + othervalue other) mod modulus).

Definition __sub__ (self : t) (other : operand) : t :=
  of_int ((value self - othervalue other) mod modulus).

(** [self.value or self.modulus] is the modulus when the value is 0. *)
Definition __neg__ (self : t) : t :=
  of_int (modulus - (if value self =? 0 then modulus else value self)).

Definition __mul__ (self : t) (other : operand) : t :=
  of_int ((value self * othervalue other) mod modulus).

Definition __radd__ := __add__.
Definition __rmul__ := __mul__.

Definition __pow__ (self : t) (other : Z) : result t :=
  v <- Builtins.pow3 (value self) other modulus ;;
  Ok (of_int v).

Definition inv (self : t) : result t :=
  if value self =? 0 then Ok (of_int 0)
  else v <- Builtins.pow3 (value self) (-1) modulus ;; Ok (of_int v).

Definition sqrt (self : t) : result t :=
  if modulus mod 4 =? 3 then __pow__ self ((modulus + 1) / 4)
  else Raise AssertionError.

Definition __truediv__ (self : t) (other : operand) : result t :=
  let other' :=
    match other with
    | OInt n => of_int n
    | OElem b => b
    end in
  i <- inv other' ;;
  Ok (__mul__ self (OElem i)).

Definition __eq__ (self : t) (other : operand) : bool :=
  value self =? othervalue other.

Definition to_bytes (self : t) : result (list byte) :=
  Builtins.int_to_bytes (value self) 4.

Definition from_bytes (bytez : list byte) : t :=
  of_int (Builtins.int_from_bytes bytez).

(** The data-model invariant: the stored representative is reduced. *)
Definition reduced (a : t) : Prop := 0 <= value a < modulus.

End Methods.

End FieldElement.

(** class BabyMersenneElement(FieldElement): modulus = 2**3 - 1 *)
Module BabyMersenneElement.
Definition modulus : Z := 2 ^ 3 - 1.
End BabyMersenneElement.

Definition BB (n : Z) : FieldElement.t :=
  FieldElement.of_int BabyMersenneElement.modulus n.

(* ===================================================================== *)
(** ** class ExtendedFieldElement *)

Module ExtendedFieldElement.

(** Two instance attributes: [value], a Python list of base elements
    (nothing in the class fixes its length), and [modulus], read off
    the first coefficient in [__init__]. *)
Record t : Set := mk { value : list FieldElement.t; modulus : Z }.

(** The dynamically typed arguments [_to_list] dispatches on.  The last
    two constructors stand for the arguments no [isinstance] test of
    [_to_list] accepts. *)
Inductive pyval : Type :=
| VInt (n : Z)                      (* an int *)
| VBase (b : FieldElement.t)        (* an instance of self.subclass *)
| VExt (x : t)                      (* an instance of self.__class__ *)
| VList (l : list pyval)            (* a list *)
| VForeign (m v : Z)                (* an element of another field class *)
| VNone.                            (* None *)

Section Methods.
(** [subclass.modulus] and [extension_i], the class attributes. *)
Variable p : Z.
Variable extension_i : Z.

#[local] Abbreviation F := FieldElement.t.
#[local] Abbreviation OInt := FieldElement.OInt.
#[local] Abbreviation OElem := FieldElement.OElem.
#[local] Notation "a +' b" := (FieldElement.__add__ p a (OElem b))
  (at level 50, left associativity).
#[local] Notation "a -' b" := (FieldElement.__sub__ p a (OElem b))
  (at level 50, left associativity).
#[local] Notation "a *' b" := (FieldElement.__mul__ p a (OElem b))
  (at level 40, left associativity).
#[local] Notation "a *i n" := (FieldElement.__mul__ p a (OInt n))
  (at level 40, left associativity).
#[local] Notation "-' a" := (FieldElement.__neg__ p a) (at level 35).

(** [self.subclass(v)]: [FieldElement.__init__] unwraps an instance of
    its own class and reduces an int.  On the other values of [pyval]
    (an extension element, a list, an element of another field class,
    [None]) the [%] raises [TypeError].  [pyval] has no float: on one
    the [%] would succeed and the float be stored as it is. *)
Definition subclass (v : pyval) : result F :=
  match v with
  | VInt n => Ok (FieldElement.__init__ p (OInt n))
  | VBase b => Ok (FieldElement.__init__ p (OElem b))
  | _ => Raise TypeError
  end.

Definition _to_list (value : pyval) : result (list F) :=
  match value with
  | VExt x => Ok (ExtendedFieldElement.value x)
  | VBase b => Ok ([b] ++ repeat (FieldElement.of_int p 0) 3)
  | VList l => mapM subclass l
  | VInt n => Ok ([FieldElement.of_int p n] ++ repeat (FieldElement.of_int p 0) 3)
  | _ => Raise Exception_
  end.

(** [__init__]: [self.value[0]] is an [IndexError] on an empty list. *)
Definition __init__ (value : pyval) : result t :=
  l <- _to_list value ;;
  match l with
  | [] => Raise IndexError
  | _ :: _ => Ok (mk l p)
  end.

(** [self.__class__([...])] on a list of base elements. *)
Definition of_list (l : list F) : result t :=
  __init__ (VList (map VBase l)).

Fixpoint zip {A B : Type} (l : list A) (l' : list B) : list (A * B) :=
  match l, l' with
  | a :: t, b :: t' => (a, b) :: zip t t'
  | _, _ => []
  end.

Definition __add__ (self : t) (other : pyval) : result t :=
  othervalue <- _to_list other ;;
  of_list (map (fun '(x, y) => x +' y) (zip (value self) othervalue)).

Definition __sub__ (self : t) (other : pyval) : result t :=
  othervalue <- _to_list other ;;
  of_list (map (fun '(x, y) => x -' y) (zip (value self) othervalue)).

(** [a, b, c, d = l]: a [ValueError] unless [l] has four items. *)
Definition unpack4 (l : list F) : result (F * F * F * F) :=
  match l with
  | [a; b; c; d] => Ok (a, b, c, d)
  | _ => Raise ValueError
  end.

(** The first branch of [__mul__], [isinstance(other, (int, subclass))]. *)
Definition mul_scalar (self : t) (other : FieldElement.operand) : result t :=
  of_list (map (fun x => FieldElement.__mul__ p x other) (value self)).

(** The rest of [__mul__]. *)
Definition mul_general (self : t) (other : pyval) : result t :=
  '(m1, m2, m3, m4) <- unpack4 (value self) ;;
  ol <- _to_list other ;;
  '(o1, o2, o3, o4) <- unpack4 ol ;;
  let o_LL := (m1 *' o1 -' m2 *' o2, m1 *' o2 +' m2 *' o1) in
  let o_LR := (m1 *' o3 -' m2 *' o4, m1 *' o4 +' m2 *' o3) in
  let o_RL := (m3 *' o1 -' m4 *' o2, m3 *' o2 +' m4 *' o1) in
  let o_RR := (m3 *' o3 -' m4 *' o4, m3 *' o4 +' m4 *' o3) in
  let o := [
    fst o_LL -' (fst o_RR -' snd o_RR *i extension_i);
    snd o_LL -' (snd o_RR +' fst o_RR *i extension_i);
    fst o_LR +' fst o_RL;
    snd o_LR +' snd o_RL
  ] in
  of_list o.

Definition __mul__ (self : t) (other : pyval) : result t :=
  match other with
  | VInt n => mul_scalar self (OInt n)
  | VBase b => mul_scalar self (OElem b)
  | _ => mul_general self other
  end.

Definition __radd__ := __add__.
Definition __rmul__ := __mul__.

(** [__pow__] recurses on [other // 2], which is not structural; the
    recursion depth is made explicit.  Running out of depth is
    Python's [RecursionError].  In the last branch [** 2] binds
    tighter than [*], and is itself a call of [__pow__]. *)
Fixpoint pow_depth (depth : nat) (self : t) (other : Z) : result t :=
  match depth with
  | O => Raise RecursionError
  | S d =>
      if other =? 0 then
        __init__ (VList [VInt 1; VInt 0; VInt 0; VInt 0])
      else if other =? 1 then Ok self
      else if other =? 2 then __mul__ self (VExt self)
      else
        a <- pow_depth d self (other mod 2) ;;
        b <- pow_depth d self (other / 2) ;;
        b2 <- pow_depth d b 2 ;;
        __mul__ a (VExt b2)
  end.

(** A non-negative exponent needs depth [1 + log2 other]; a negative
    one never reaches a base case ([-1 // 2 = -1]) and exhausts any
    depth. *)
Definition __pow__ (self : t) (other : Z) : result t :=
  pow_depth (S (Z.to_nat (Z.log2 other))) self other.

Definition inv (self : t) : result t :=
  '(x0, x1, x2, x3) <- unpack4 (value self) ;;
  let r20 := x2 *' x2 -' x3 *' x3 in
  let r21 := x2 *i 2 *' x3 in
  x0_2 <- FieldElement.__pow__ p x0 2 ;;
  x1_2 <- FieldElement.__pow__ p x1 2 ;;
  let denom0 := x0_2 -' x1_2 +' r20 -' r21 *i 2 in
  let denom1 := x0 *i 2 *' x1 +' r21 +' r20 *i 2 in
  denom0_2 <- FieldElement.__pow__ p denom0 2 ;;
  denom1_2 <- FieldElement.__pow__ p denom1 2 ;;
  inv_denom_norm <- FieldElement.inv p (denom0_2 +' denom1_2) ;;
  let inv_denom0 := denom0 *' inv_denom_norm in
  let inv_denom1 := -' denom1 *' inv_denom_norm in
  of_list [
    x0 *' inv_denom0 -' x1 *' inv_denom1;
    x0 *' inv_denom1 +' x1 *' inv_denom0;
    -' x2 *' inv_denom0 +' x3 *' inv_denom1;
    -' x2 *' inv_denom1 -' x3 *' inv_denom0
  ].

(** List equality of Python: same length and itemwise [==]. *)
Fixpoint list_eq {A B : Type} (eq : A -> B -> bool)
    (l : list A) (l' : list B) : bool :=
  match l, l' with
  | [], [] => true
  | a :: t, b :: t' => eq a b && list_eq eq t t'
  | _, _ => false
  end.

Definition __truediv__ (self : t) (other : pyval) : result t :=
  ol <- _to_list other ;;
  other' <- of_list ol ;;
  if list_eq (fun v n => FieldElement.__eq__ v (OInt n))
       (tl (value other')) [0; 0; 0]
  then
    factor <- FieldElement.inv p (hd (FieldElement.of_int p 0) (value other')) ;;
    of_list (map (fun v => v *' factor) (value self))
  else
    i <- inv other' ;;
    __mul__ self (VExt i).

Definition __eq__ (self : t) (other : pyval) : result bool :=
  ol <- _to_list other ;;
  Ok (list_eq (fun a b => FieldElement.__eq__ a (OElem b)) (value self) ol).

Definition to_bytes (self : t) : result (list byte) :=
  bs <- mapM FieldElement.to_bytes (value self) ;;
  Ok (concat bs).

Definition from_bytes (bytez : list byte) : result t :=
  __init__ (VList (map
    (fun i => VInt (Builtins.int_from_bytes (Builtins.slice bytez i (i + 4))))
    [0; 4; 8; 12]%nat)).

End Methods.

(** The data-model invariant: four coefficients. *)
Definition quartic (x : t) : Prop := length (value x) = 4%nat.

End ExtendedFieldElement.

(** class ExtendedBabyMersenneElement(ExtendedFieldElement):
      subclass = BabyMersenneElement; extension_i = 4 *)
Module ExtendedBabyMersenneElement.
Definition subclass_modulus : Z := BabyMersenneElement.modulus.
Definition extension_i : Z := 4.
End ExtendedBabyMersenneElement.

Module EBBOps.
Import ExtendedFieldElement.
#[local] Abbreviation p := ExtendedBabyMersenneElement.subclass_modulus.
#[local] Abbreviation ei := ExtendedBabyMersenneElement.extension_i.

(** [EBB([c0, c1, ...])] on a list of ints. *)
Definition EBB (l : list Z) : result t := __init__ p (VList (map VInt l)).
Definition mul (x y : t) : result t := __mul__ p ei x (VExt y).
Definition pow (x : t) (e : Z) : result t := __pow__ p ei x e.
Definition inv (x : t) : result t := inv p x.
Definition eq (x y : t) : result bool := __eq__ p x (VExt y).
End EBBOps.


(* ===================================================================== *)
(** ** Executable checks over the toy field

    The toy extension has [7 ^ 4] elements, so a statement about all of
    them is decided by running the methods on each. *)

Module Exhaustive.
Import ExtendedFieldElement.

Definition residues : list Z := [0; 1; 2; 3; 4; 5; 6].

(** The element with the given reduced coefficients. *)
Definition elem (c0 c1 c2 c3 : Z) : t :=
  mk [FieldElement.mk c0; FieldElement.mk c1;
      FieldElement.mk c2; FieldElement.mk c3] BabyMersenneElement.modulus.

Definition elem_eqb (x y : t) : bool :=
  list_eq (fun a b => FieldElement.value a =? FieldElement.value b)
    (value x) (value y)
  && (modulus x =? modulus y).

Definition is_elem (r : result t) (y : t) : bool :=
  match r with
  | Ok x => elem_eqb x y
  | Raise _ => false
  end.

Definition is_zero (c0 c1 c2 c3 : Z) : bool :=
  (c0 =? 0) && (c1 =? 0) && (c2 =? 0) && (c3 =? 0).

Definition for_all4 (P : Z -> Z -> Z -> Z -> bool) : bool :=
  forallb (fun c0 => forallb (fun c1 => forallb (fun c2 =>
    forallb (fun c3 => P c0 c1 c2 c3) residues) residues) residues) residues.

(** [x ** (7**4 - 1)] is one, for every nonzero [x]. *)
Definition fermat_check : bool :=
  for_all4 (fun c0 c1 c2 c3 =>
    is_zero c0 c1 c2 c3
    || is_elem (EBBOps.pow (elem c0 c1 c2 c3) (7 ^ 4 - 1)) (elem 1 0 0 0)).

(** [x * x.inv()] computed with tower constant [ei]. *)
Definition mul_inv (ei : Z) (x : t) : result t :=
  i <- inv BabyMersenneElement.modulus x ;;
  __mul__ BabyMersenneElement.modulus ei x (VExt i).

(** [x * x.inv()] is one for every nonzero [x] with [c2 = c3 = 0]. *)
Definition inv_check_left_half : bool :=
  forallb (fun c0 => forallb (fun c1 =>
    is_zero c0 c1 0 0
    || is_elem (mul_inv ExtendedBabyMersenneElement.extension_i (elem c0 c1 0 0))
         (elem 1 0 0 0)) residues) residues.

(** [x * x.inv()] is one for every nonzero [x], had the tower constant
    been the 2 that [inv] is written for. *)
Definition inv_check_constant_2 : bool :=
  for_all4 (fun c0 c1 c2 c3 =>
    is_zero c0 c1 c2 c3
    || is_elem (mul_inv 2 (elem c0 c1 c2 c3)) (elem 1 0 0 0)).

End Exhaustive.

(** The construction contract as the specification words it: the
    admissible arguments are an integer, a base or extension element of
    the same field, or a sequence of four coercible items. *)
Module ConstructionSpec.
Import ExtendedFieldElement.

Definition coercible (v : pyval) : bool :=
  match v with
  | VInt _ | VBase _ => true
  | _ => false
  end.

Definition admissible (v : pyval) : bool :=
  match v with
  | VInt _ | VBase _ | VExt _ => true
  | VList l => (length l =? 4)%nat && forallb coercible l
  | _ => false
  end.

(** What [_to_list] dispatches on instead: the type alone. *)
Definition dispatched (v : pyval) : bool :=
  match v with
  | VInt _ | VBase _ | VExt _ | VList _ => true
  | _ => false
  end.

End ConstructionSpec.

(* ===================================================================== *)
(** ** Circle group helpers

    [point_add] and [point_double] are written once for any operands
    with [*], [+] and [-]; here they are taken on pairs of base-field
    elements.  In [point_double] the products [2 * x1] start from the
    int, so they are [x1.__rmul__(2)], and [- 1] is [__sub__] with an
    int operand. *)

Module CircleGroup.
Import FieldElement.

Section Points.
Variable modulus : Z.

#[local] Notation "a +' b" := (__add__ modulus a (OElem b))
  (at level 50, left associativity).
#[local] Notation "a -' b" := (__sub__ modulus a (OElem b))
  (at level 50, left associativity).
#[local] Notation "a *' b" := (__mul__ modulus a (OElem b))
  (at level 40, left associativity).

Definition point_add (pt1 pt2 : t * t) : t * t :=
  let '(x1, y1) := pt1 in
  let '(x2, y2) := pt2 in
  (x1 *' x2 -' y1 *' y2,
   x1 *' y2 +' x2 *' y1).

Definition point_double (pt : t * t) : t * t :=
  let '(x1, y1) := pt in
  (__sub__ modulus (__rmul__ modulus x1 (OInt 2) *' x1) (OInt 1),
   __rmul__ modulus x1 (OInt 2) *' y1).

(** The points the helpers are meant for: [x * x + y * y == 1]. *)
Definition on_circle (pt : t * t) : bool :=
  let '(x, y) := pt in
  __eq__ (x *' x +' y *' y) (OInt 1).

End Points.

End CircleGroup.

(* ===================================================================== *)
(** ** Reference arithmetic

    Congruence modulo the modulus, and the operations of the extension
    written on four integer coefficients with a single reduction at the
    end.  The methods are compared with these below. *)

Module Reference.

Definition cong (p a b : Z) : Prop := a mod p = b mod p.

Definition coeffs : Set := (Z * Z * Z * Z)%type.

Definition elem_of (p : Z) (c : coeffs) : ExtendedFieldElement.t :=
  let '(c0, c1, c2, c3) := c in
  ExtendedFieldElement.mk
    [FieldElement.mk c0; FieldElement.mk c1;
     FieldElement.mk c2; FieldElement.mk c3] p.

Definition reduced4 (p : Z) (c : coeffs) : Prop :=
  let '(c0, c1, c2, c3) := c in
  0 <= c0 < p /\ 0 <= c1 < p /\ 0 <= c2 < p /\ 0 <= c3 < p.

(** The product in the tower: [i * i = -1] and
    [j * j = - (1 + extension_i * i)]. *)
Definition mul4 (p ei : Z) (m o : coeffs) : coeffs :=
  let '(m1, m2, m3, m4) := m in
  let '(o1, o2, o3, o4) := o in
  ((m1 * o1 - m2 * o2 - ((m3 * o3 - m4 * o4) - (m3 * o4 + m4 * o3) * ei)) mod p,
   (m1 * o2 + m2 * o1 - ((m3 * o4 + m4 * o3) + (m3 * o3 - m4 * o4) * ei)) mod p,
   (m1 * o3 - m2 * o4 + (m3 * o1 - m4 * o2)) mod p,
   (m1 * o4 + m2 * o3 + (m3 * o2 + m4 * o1)) mod p).

Definition add4 (p : Z) (m o : coeffs) : coeffs :=
  let '(m1, m2, m3, m4) := m in
  let '(o1, o2, o3, o4) := o in
  ((m1 + o1) mod p, (m2 + o2) mod p, (m3 + o3) mod p, (m4 + o4) mod p).

Definition sub4 (p : Z) (m o : coeffs) : coeffs :=
  let '(m1, m2, m3, m4) := m in
  let '(o1, o2, o3, o4) := o in
  ((m1 - o1) mod p, (m2 - o2) mod p, (m3 - o3) mod p, (m4 - o4) mod p).

Definition one4 (p : Z) : coeffs := (1 mod p, 0, 0, 0).

Fixpoint pow4 (p ei : Z) (n : nat) (c : coeffs) : coeffs :=
  match n with
  | O => one4 p
  | S k => mul4 p ei (pow4 p ei k c) c
  end.

(** Exponentiation by repeated multiplication, with the methods
    themselves: [x ** 0] is [(1, 0, 0, 0)] and [x ** (k + 1)] is
    [x ** k * x]. *)
Fixpoint repeated_mul (p ei : Z) (n : nat) (x : ExtendedFieldElement.t)
    : result ExtendedFieldElement.t :=
  match n with
  | O => ExtendedFieldElement.__init__ p
           (ExtendedFieldElement.VList
              (map ExtendedFieldElement.VInt [1; 0; 0; 0]))
  | S k =>
      r <- repeated_mul p ei k x ;;
      ExtendedFieldElement.__mul__ p ei r (ExtendedFieldElement.VExt x)
  end.

(** An extension element as the data model has it: four reduced
    coefficients and the modulus of the field. *)
Definition wf (p : Z) (x : ExtendedFieldElement.t) : Prop :=
  ExtendedFieldElement.modulus x = p /\
  ExtendedFieldElement.quartic x /\
  Forall (FieldElement.reduced p) (ExtendedFieldElement.value x).

End Reference.

(* ===================================================================== *)
(** ** Further executable checks over the toy field *)

Module ExhaustiveMore.
Import ExtendedFieldElement Exhaustive.

(** [x * y.inv()]. *)
Definition mul_inv_of (x y : t) : result t :=
  i <- inv BabyMersenneElement.modulus y ;;
  __mul__ BabyMersenneElement.modulus
    ExtendedBabyMersenneElement.extension_i x (VExt i).

Definition result_eqb (r r' : result t) : bool :=
  match r, r' with
  | Ok a, Ok b => elem_eqb a b
  | _, _ => false
  end.

(** [x * x.inv()] is one exactly for the nonzero [x] with
    [c2 = c3 = 0]. *)
Definition inv_exact_check : bool :=
  for_all4 (fun c0 c1 c2 c3 =>
    is_zero c0 c1 c2 c3
    || Bool.eqb
         (is_elem (mul_inv ExtendedBabyMersenneElement.extension_i
                     (elem c0 c1 c2 c3)) (elem 1 0 0 0))
         ((c2 =? 0) && (c3 =? 0))).

(** [x / y] by the scalar branch of [__truediv__] against
    [x * y.inv()], for every [x] and every scalar [y]. *)
Definition div_scalar_check : bool :=
  for_all4 (fun c0 c1 c2 c3 =>
    forallb (fun b =>
      result_eqb
        (__truediv__ BabyMersenneElement.modulus
           ExtendedBabyMersenneElement.extension_i
           (elem c0 c1 c2 c3) (VExt (elem b 0 0 0)))
        (mul_inv_of (elem c0 c1 c2 c3) (elem b 0 0 0))) residues).

End ExhaustiveMore.

(* ===================================================================== *)
(** * Properties *)

(** ** The base field *)

Module FieldElementFacts.
Import FieldElement.

Lemma prime_7 : Z.prime BabyMersenneElement.modulus.
Proof.
  split; [reflexivity|].
  intros n Hn [k Hk]. unfold BabyMersenneElement.modulus in *.
  assert (n = 2 \/ n = 3 \/ n = 4 \/ n = 5 \/ n = 6) as Hc by (simpl in Hn; lia).
  simpl in Hk. intuition (subst n; lia).
Qed.

Section Facts.
Variable p : Z.

Lemma of_int_reduced n : 0 < p -> reduced p (of_int p n).
Proof. intros Hp. unfold reduced, of_int, __init__; simpl. now apply Z.mod_pos_bound. Qed.

Lemma of_int_value n : value (of_int p n) = n mod p.
Proof. reflexivity. Qed.

Lemma of_int_of_reduced a : reduced p a -> of_int p (value a) = a.
Proof.
  destruct a as [v]; unfold reduced, of_int, __init__; simpl; intros H.
  now rewrite Z.mod_small.
Qed.

(** Each arithmetic method stores the plain modular result. *)
Lemma add_value a o : value (__add__ p a o) = (value a + othervalue o) mod p.
Proof. unfold __add__. rewrite of_int_value. apply Zmod_mod. Qed.

Lemma sub_value a o : value (__sub__ p a o) = (value a - othervalue o) mod p.
Proof. unfold __sub__. rewrite of_int_value. apply Zmod_mod. Qed.

Lemma mul_value a o : value (__mul__ p a o) = (value a * othervalue o) mod p.
Proof. unfold __mul__. rewrite of_int_value. apply Zmod_mod. Qed.

Lemma neg_value a : 0 < p -> value (__neg__ p a) = (- value a) mod p.
Proof.
  intros Hp. unfold __neg__. rewrite of_int_value.
  destruct (Z.eqb_spec (value a) 0) as [->|_].
  - now rewrite Z.sub_diag.
  - replace (p - value a) with (- value a + 1 * p) by ring.
    apply Z.mod_add. lia.
Qed.

Lemma pow_nonneg a e :
  0 < p -> 0 <= e -> __pow__ p a e = Ok (mk (value a ^ e mod p)).
Proof.
  intros Hp He. unfold __pow__, Builtins.pow3.
  destruct (Z.eqb_spec p 0); [lia|].
  destruct (Z.ltb_spec e 0); [lia|]. simpl.
  unfold of_int, __init__; simpl. now rewrite Zmod_mod.
Qed.

(** On a prime modulus [inv] never raises, and returns the residue that
    [Z.invmod] computes. *)
Lemma inv_prime a :
  Z.prime p -> reduced p a ->
  inv p a = Ok (mk (if value a =? 0 then 0 else Z.invmod (value a) p)).
Proof.
  intros Hp [Ha1 Ha2]. pose proof (Z.prime_ge_2 _ Hp) as H2.
  unfold inv. destruct (Z.eqb_spec (value a) 0) as [E|E].
  - unfold of_int, __init__; simpl. now rewrite Zmod_0_l.
  - unfold Builtins.pow3. destruct (Z.eqb_spec p 0); [lia|]. simpl.
    assert (Z.gcd (value a) p = 1) as G.
    { rewrite Z.gcd_comm. apply Z.coprime_prime_small; [assumption|lia]. }
    rewrite G. simpl. unfold of_int, __init__; simpl.
    change (Z.pow_pos (Z.invmod (value a) p) 1) with (Z.invmod (value a) p ^ 1).
    now rewrite Z.pow_1_r, !Z.mod_invmod.
Qed.

Lemma invmod_inverse a :
  Z.prime p -> 1 <= a < p -> (a * Z.invmod a p) mod p = 1.
Proof.
  intros Hp Ha. rewrite Z.mul_comm. apply Z.invmod_prime; [assumption|].
  rewrite Z.mod_small; lia.
Qed.

Lemma invmod_range a : 0 < p -> 0 <= Z.invmod a p < p.
Proof. intros Hp. rewrite <- Z.mod_invmod. now apply Z.mod_pos_bound. Qed.

End Facts.

(** C8.  Every operation of the prime field returns a reduced
    representative: whatever integer an element is built from, and for
    all reduced [a], [b], any integer operand [n] and any exponent
    [e >= 0], the results of construction, [+], [-], unary [-], [*],
    [**], [inv] and [/] have their value in [[0, p)] ([**], [inv] and [/]
    do return); and the negation of zero is zero, not [p]. *)
Theorem C8_reduced_invariant (p : Z) (Hp : Z.prime p)
    (a b : t) (n e : Z)
    (Ha : reduced p a) (Hb : reduced p b) (He : 0 <= e) :
  reduced p (__init__ p (OInt n)) /\
  reduced p (__add__ p a (OElem b)) /\ reduced p (__add__ p a (OInt n)) /\
  reduced p (__sub__ p a (OElem b)) /\ reduced p (__sub__ p a (OInt n)) /\
  reduced p (__mul__ p a (OElem b)) /\ reduced p (__mul__ p a (OInt n)) /\
  reduced p (__neg__ p a) /\
  (exists r, __pow__ p a e = Ok r /\ reduced p r) /\
  (exists r, inv p a = Ok r /\ reduced p r) /\
  (exists r, __truediv__ p a (OElem b) = Ok r /\ reduced p r) /\
  (exists r, __truediv__ p a (OInt n) = Ok r /\ reduced p r) /\
  __neg__ p (of_int p 0) = mk 0.
Proof.
  pose proof (Z.prime_ge_2 _ Hp) as H2.
  assert (0 < p) as Hpos by lia.
  assert (forall x, exists r, inv p (of_int p x) = Ok r) as Hinv.
  { intros x. rewrite inv_prime by auto using of_int_reduced. eauto. }
  repeat split; try (apply of_int_reduced; assumption).
  - rewrite pow_nonneg by assumption. eexists; split; [reflexivity|].
    unfold reduced; simpl. now apply Z.mod_pos_bound.
  - rewrite inv_prime by assumption. eexists; split; [reflexivity|].
    unfold reduced; simpl. destruct (value a =? 0); [lia|].
    now apply invmod_range.
  - unfold __truediv__. rewrite inv_prime by assumption. simpl.
    eexists; split; [reflexivity|]. now apply of_int_reduced.
  - unfold __truediv__. destruct (Hinv n) as [r ->]. simpl.
    eexists; split; [reflexivity|]. now apply of_int_reduced.
  - unfold __neg__, of_int, __init__; simpl. now rewrite Z.sub_diag.

Qed.

Lemma C8_reduced_invariant_witness :
  Z.prime 7 /\ reduced 7 (BB 3) /\ reduced 7 (BB 5) /\ 0 <= 2 /\
  reduced 7 (__add__ 7 (BB 3) (OElem (BB 5))) /\
  (exists r, inv 7 (BB 3) = Ok r /\ reduced 7 r) /\
  __neg__ 7 (of_int 7 0) = mk 0.
Proof.
  assert (reduced 7 (BB 3)) as H3 by (vm_compute; split; [discriminate|reflexivity]).
  assert (reduced 7 (BB 5)) as H5 by (vm_compute; split; [discriminate|reflexivity]).
  assert (0 <= 2) as H0 by lia.
  pose proof (C8_reduced_invariant 7 prime_7 (BB 3) (BB 5) 10 2 H3 H5 H0) as H.
  repeat (split; [first [exact prime_7 | assumption | apply H]|]).
  apply H.
Defined.

(** C10.  Equality against a plain integer compares the stored residue
    with the integer as given, without reducing it: [a == n] holds
    exactly when [a.value] is [n]; so with modulus 7 the element 3 is not
    equal to the integer 10, although 10 is congruent to 3. *)
Theorem C10_eq_int_unreduced :
  (forall (a : t) (n : Z), __eq__ a (OInt n) = true <-> value a = n) /\
  (10 mod BabyMersenneElement.modulus = value (BB 3) /\
   __eq__ (BB 3) (OInt 10) = false).
Proof.
  split.
  - intros a n. unfold __eq__; simpl. apply Z.eqb_eq.
  - split; reflexivity.
Qed.

(** C6.  On a prime modulus [p], every [a] in [[1, p)] has
    [a * a.inv() == 1], where [a.inv()] is the unique residue [b] in
    [[0, p)] with [a * b = 1 (mod p)]; and [inv] of zero returns zero
    without raising. *)
Theorem C6_inverse_law (p : Z) (Hp : Z.prime p) :
  (forall a : Z, 1 <= a < p ->
     exists b : t,
       inv p (mk a) = Ok b /\
       __eq__ (__mul__ p (mk a) (OElem b)) (OInt 1) = true /\
       reduced p b /\
       (a * value b) mod p = 1 /\
       (forall b' : Z, 0 <= b' < p -> (a * b') mod p = 1 -> b' = value b)) /\
  inv p (mk 0) = Ok (mk 0).
Proof.
  pose proof (Z.prime_ge_2 _ Hp) as H2.
  split.
  - intros a Ha.
    assert (reduced p (mk a)) as Hr by (unfold reduced; simpl; lia).
    rewrite (inv_prime p _ Hp Hr). simpl.
    destruct (Z.eqb_spec a 0) as [E|_]; [lia|].
    pose proof (invmod_inverse p a Hp Ha) as Hinv.
    pose proof (invmod_range p a ltac:(lia)) as Hrg.
    eexists; split; [reflexivity|]. simpl.
    split; [unfold __eq__; rewrite mul_value; simpl; now rewrite Hinv|].
    split; [exact Hrg|]. split; [exact Hinv|].
    + intros b' Hb' Hab'.
      (* b' = b' * (a * i) = (a * b') * i = i  modulo p *)
      set (i := Z.invmod a p) in *.
      assert ((b' * (a * i)) mod p = b' mod p) as E1.
      { rewrite <- Z.mul_mod_idemp_r by lia. rewrite Hinv, Z.mul_1_r. reflexivity. }
      assert ((b' * (a * i)) mod p = i mod p) as E2.
      { replace (b' * (a * i)) with ((a * b') * i) by ring.
        rewrite <- Z.mul_mod_idemp_l by lia. rewrite Hab', Z.mul_1_l. reflexivity. }
      rewrite E1 in E2. rewrite !Z.mod_small in E2 by lia. exact E2.
  - assert (reduced p (mk 0)) as Hr by (unfold reduced; simpl; lia).
    rewrite (inv_prime p _ Hp Hr). reflexivity.
Qed.

Lemma C6_inverse_law_witness :
  Z.prime 7 /\ 1 <= 3 < 7 /\
  (exists b : t, inv 7 (mk 3) = Ok b /\
     __eq__ (__mul__ 7 (mk 3) (OElem b)) (OInt 1) = true) /\
  inv 7 (mk 0) = Ok (mk 0).
Proof.
  split; [exact prime_7|]. split; [lia|].
  destruct (C6_inverse_law 7 prime_7) as [H H0].
  split; [|exact H0].
  destruct (H 3 ltac:(lia)) as (b & Hb & He & _).
  exists b. split; assumption.
Defined.

(** C5.  On a prime modulus [p] with [p = 3 (mod 4)], [sqrt] of a
    residue [a] returns [a ^ ((p + 1) / 4) mod p], and when [a] is a
    quadratic residue the returned [c] satisfies [c * c == a]; when the
    modulus is not [3 (mod 4)] the call fails with an assertion error
    and returns nothing. *)
Theorem C5_sqrt (p a : Z) :
  (Z.prime p -> 0 <= a < p -> p mod 4 = 3 ->
     sqrt p (mk a) = Ok (mk (a ^ ((p + 1) / 4) mod p)) /\
     ((exists b : Z, (b * b) mod p = a) ->
        exists c : t, sqrt p (mk a) = Ok c /\
          __eq__ (__mul__ p c (OElem c)) (OElem (mk a)) = true)) /\
  (p mod 4 <> 3 -> sqrt p (mk a) = Raise AssertionError).
Proof.
  split.
  - intros Hp Ha H34. pose proof (Z.prime_ge_2 _ Hp) as H2.
    assert (0 <= (p + 1) / 4) as Hk by (apply Z.div_pos; lia).
    assert (sqrt p (mk a) = Ok (mk (a ^ ((p + 1) / 4) mod p))) as Hs.
    { unfold sqrt. rewrite H34. simpl. now rewrite pow_nonneg by lia. }
    split; [exact Hs|].
    intros [b Hb]. eexists; split; [exact Hs|].
    unfold __eq__. rewrite mul_value. simpl. apply Z.eqb_eq.
    set (k := (p + 1) / 4) in *.
    assert (p + 1 = 4 * k) as Hpk.
    { unfold k. pose proof (Z.div_mod p 4 ltac:(lia)) as D. rewrite H34 in D.
      replace (p + 1) with ((p / 4 + 1) * 4) by lia.
      rewrite Z.div_mul by lia. lia. }
    (* c * c = a ^ (2k) = b ^ (4k) = b ^ p * b = b * b = a, modulo p *)
    rewrite <- Z.mul_mod by lia.
    rewrite <- Z.pow_add_r by lia.
    rewrite <- Hb at 1. rewrite Z.mod_pow_l.
    replace (b * b) with (b ^ 2) by ring.
    rewrite <- Z.pow_mul_r by lia.
    replace (2 * (k + k)) with (p + 1) by lia.
    rewrite Z.pow_add_r, Z.pow_1_r by lia.
    rewrite <- Z.mul_mod_idemp_l by lia.
    rewrite Z.fermat by assumption.
    rewrite Z.mul_mod_idemp_l by lia. exact Hb.
  - intros H34. unfold sqrt.
    destruct (Z.eqb_spec (p mod 4) 3); [contradiction|reflexivity].
Qed.

Lemma C5_sqrt_witness :
  (Z.prime 7 /\ 0 <= 2 < 7 /\ 7 mod 4 = 3 /\ (3 * 3) mod 7 = 2 /\
   sqrt 7 (mk 2) = Ok (mk (2 ^ ((7 + 1) / 4) mod 7)) /\
   exists c : t, sqrt 7 (mk 2) = Ok c /\
     __eq__ (__mul__ 7 c (OElem c)) (OElem (mk 2)) = true) /\
  (5 mod 4 <> 3 /\ sqrt 5 (mk 2) = Raise AssertionError).
Proof.
  split.
  - split; [exact prime_7|]. split; [lia|]. split; [reflexivity|].
    split; [reflexivity|].
    destruct (proj1 (C5_sqrt 7 2) prime_7 ltac:(lia) eq_refl) as [Hs Hq].
    split; [exact Hs|].
    apply Hq. exists 3. reflexivity.
  - assert (5 mod 4 <> 3) as H by discriminate.
    split; [exact H|]. exact (proj2 (C5_sqrt 5 2) H).
Defined.

End FieldElementFacts.

(** ** Byte encodings *)

Module BuiltinsFacts.
Import Builtins.

Lemma Z_of_byte_of_Z z : 0 <= z < 256 -> Z_of_byte (byte_of_Z z) = z.
Proof.
  intros Hz. unfold Z_of_byte, byte_of_Z.
  destruct (Byte.of_N (Z.to_N z)) as [b|] eqn:E.
  - apply Byte.to_of_N in E. rewrite E. lia.
  - apply Byte.of_N_None_iff in E. lia.
Qed.

Lemma le_digits_length len n : length (le_digits len n) = len.
Proof. revert n; induction len as [|k IH]; intros n; simpl; [|rewrite IH]; reflexivity. Qed.

(** Decoding the [len] low digits gives back the integer modulo
    [256 ^ len]. *)
Lemma int_from_le_digits len n :
  int_from_bytes (le_digits len n) = n mod 256 ^ Z.of_nat len.
Proof.
  revert n; induction len as [|k IH]; intros n.
  - simpl. now rewrite Z.mod_1_r.
  - cbn [le_digits int_from_bytes].
    rewrite IH, Z_of_byte_of_Z by (apply Z.mod_pos_bound; lia).
    rewrite Nat2Z.inj_succ, Z.pow_succ_r by lia.
    symmetry. apply Z.rem_mul_r; lia.
Qed.

Lemma int_to_bytes_fits n len :
  0 <= n < 256 ^ Z.of_nat len -> int_to_bytes n len = Ok (le_digits len n).
Proof.
  intros Hn. unfold int_to_bytes.
  destruct (Z.ltb_spec n 0); [lia|].
  destruct (Z.leb_spec (256 ^ Z.of_nat len) n); [lia|]. reflexivity.
Qed.

Lemma int_roundtrip n len bs :
  int_to_bytes n len = Ok bs -> int_from_bytes bs = n /\ length bs = len.
Proof.
  unfold int_to_bytes.
  destruct (Z.ltb_spec n 0); [discriminate|].
  destruct (Z.leb_spec (256 ^ Z.of_nat len) n); [discriminate|]. simpl.
  intros [= <-]. rewrite int_from_le_digits, le_digits_length.
  split; [apply Z.mod_small; lia | reflexivity].
Qed.

(** The digits of a 4-byte encoding, spelled out. *)
Lemma le_digits_4 n :
  le_digits 4 n =
  [byte_of_Z (n mod 256); byte_of_Z (n / 256 mod 256);
   byte_of_Z (n / 256 / 256 mod 256); byte_of_Z (n / 256 / 256 / 256 mod 256)].
Proof. reflexivity. Qed.

End BuiltinsFacts.

(** ** The quartic extension *)

Module ExtendedFieldElementFacts.
Import ExtendedFieldElement Exhaustive.

#[local] Abbreviation F := FieldElement.t.

(** *** Deciding by enumeration *)

Lemma In_residues c : 0 <= c < 7 -> In c residues.
Proof.
  intros H.
  assert (c = 0 \/ c = 1 \/ c = 2 \/ c = 3 \/ c = 4 \/ c = 5 \/ c = 6) as Hc by lia.
  unfold residues; simpl. intuition.
Qed.

Lemma for_all4_spec P c0 c1 c2 c3 :
  for_all4 P = true ->
  In c0 residues -> In c1 residues -> In c2 residues -> In c3 residues ->
  P c0 c1 c2 c3 = true.
Proof.
  unfold for_all4. intros H H0 H1 H2 H3.
  rewrite forallb_forall in H. specialize (H _ H0).
  rewrite forallb_forall in H. specialize (H _ H1).
  rewrite forallb_forall in H. specialize (H _ H2).
  rewrite forallb_forall in H. exact (H _ H3).
Qed.

Lemma list_eq_value (l l' : list F) :
  list_eq (fun a b => FieldElement.value a =? FieldElement.value b) l l' = true ->
  l = l'.
Proof.
  revert l'; induction l as [|[a] l IH]; intros [|[b] l']; simpl;
    try discriminate; [reflexivity|].
  intros H. apply andb_true_iff in H as [Hab Hl].
  apply Z.eqb_eq in Hab. subst b. f_equal. now apply IH.
Qed.

Lemma elem_eqb_eq x y : elem_eqb x y = true -> x = y.
Proof.
  destruct x as [l m], y as [l' m']. unfold elem_eqb; simpl.
  intros H. apply andb_true_iff in H as [Hl Hm].
  apply list_eq_value in Hl. apply Z.eqb_eq in Hm. now subst.
Qed.

Lemma is_elem_eq r y : is_elem r y = true -> r = Ok y.
Proof.
  destruct r as [x|e]; simpl; [|discriminate].
  intros H. now rewrite (elem_eqb_eq _ _ H).
Qed.

Lemma is_zero_eq c0 c1 c2 c3 :
  is_zero c0 c1 c2 c3 = true -> c0 = 0 /\ c1 = 0 /\ c2 = 0 /\ c3 = 0.
Proof.
  unfold is_zero. rewrite !andb_true_iff, !Z.eqb_eq. tauto.
Qed.

(** [EBB] of four integers is the element of their residues. *)
Lemma EBB_elem c0 c1 c2 c3 :
  EBBOps.EBB [c0; c1; c2; c3] = Ok (elem (c0 mod 7) (c1 mod 7) (c2 mod 7) (c3 mod 7)).
Proof. reflexivity. Qed.

Lemma fermat_check_true : fermat_check = true.
Proof. vm_compute. reflexivity. Qed.

Lemma inv_check_left_half_true : inv_check_left_half = true.
Proof. vm_compute. reflexivity. Qed.

Lemma inv_check_constant_2_true : inv_check_constant_2 = true.
Proof. vm_compute. reflexivity. Qed.

(** *** The recursion of [__pow__] *)

Section Pow.
Variables p ei : Z.

Lemma pow_depth_base d x e :
  0 <= e <= 2 -> pow_depth p ei (S d) x e = pow_depth p ei 1 x e.
Proof.
  intros He. assert (e = 0 \/ e = 1 \/ e = 2) as [-> | [-> | ->]] by lia; reflexivity.
Qed.

Lemma log2_half e : 2 <= e -> Z.to_nat (Z.log2 e) = S (Z.to_nat (Z.log2 (e / 2))).
Proof.
  intros He.
  assert (0 < e / 2) as Hh by (apply Z.div_str_pos; lia).
  pose proof (Z.log2_nonneg (e / 2)) as Hl.
  pose proof (Z.div_mod e 2 ltac:(lia)) as D.
  pose proof (Z.mod_pos_bound e 2 ltac:(lia)) as B.
  assert (e mod 2 = 0 \/ e mod 2 = 1) as [E|E] by lia; rewrite E in D.
  - rewrite D at 1. rewrite Z.add_0_r, Z.log2_double by assumption. lia.
  - rewrite D at 1. rewrite Z.log2_succ_double by assumption. lia.
Qed.

(** The four branches of [__pow__], as the method is written. *)
Lemma pow_unfold x e :
  __pow__ p ei x e =
  if e =? 0 then __init__ p (VList [VInt 1; VInt 0; VInt 0; VInt 0])
  else if e =? 1 then Ok x
  else if e =? 2 then __mul__ p ei x (VExt x)
  else if e <? 0 then Raise RecursionError
  else
    a <- __pow__ p ei x (e mod 2) ;;
    b <- __pow__ p ei x (e / 2) ;;
    b2 <- __pow__ p ei b 2 ;;
    __mul__ p ei a (VExt b2).
Proof.
  unfold __pow__ at 1. cbn [pow_depth].
  destruct (Z.eqb_spec e 0) as [E0|E0]; [reflexivity|].
  destruct (Z.eqb_spec e 1) as [E1|E1]; [reflexivity|].
  destruct (Z.eqb_spec e 2) as [E2|E2]; [reflexivity|].
  destruct (Z.ltb_spec e 0) as [Hneg|Hpos].
  - replace (Z.log2 e) with 0 by (symmetry; apply Z.log2_nonpos; lia).
    reflexivity.
  - pose proof (Z.mod_pos_bound e 2 ltac:(lia)) as B.
    rewrite log2_half by lia.
    rewrite pow_depth_base by lia.
    unfold __pow__.
    replace (S (Z.to_nat (Z.log2 (e mod 2)))) with 1%nat.
    2:{ assert (e mod 2 = 0 \/ e mod 2 = 1) as [-> | ->] by lia; reflexivity. }
    reflexivity.
Qed.

(** A negative exponent exhausts every recursion depth. *)
Lemma pow_depth_negative d x e :
  e < 0 -> pow_depth p ei d x e = Raise RecursionError.
Proof.
  revert x e; induction d as [|d IH]; intros x e He; [reflexivity|].
  cbn [pow_depth].
  destruct (Z.eqb_spec e 0); [lia|].
  destruct (Z.eqb_spec e 1); [lia|].
  destruct (Z.eqb_spec e 2); [lia|].
  destruct (pow_depth p ei d x (e mod 2)) as [a|err] eqn:Ea.
  - simpl bind. rewrite IH; [reflexivity|].
    apply Z.div_lt_upper_bound; lia.
  - destruct d; [simpl in Ea; now inversion Ea|].
    pose proof (Z.mod_pos_bound e 2 ltac:(lia)) as B.
    rewrite pow_depth_base in Ea by lia.
    assert (e mod 2 = 0 \/ e mod 2 = 1) as [E|E] by lia;
      rewrite E in Ea; simpl in Ea; discriminate.
Qed.

Lemma mul_quartic x y :
  quartic x -> quartic y ->
  exists r, __mul__ p ei x (VExt y) = Ok r /\ quartic r.
Proof.
  destruct x as [[|a0 [|a1 [|a2 [|a3 [|]]]]] m]; try discriminate.
  destruct y as [[|b0 [|b1 [|b2 [|b3 [|]]]]] m']; try discriminate.
  intros _ _. eexists; split; reflexivity.
Qed.

(** On a non-negative exponent the recursion ends within the depth
    [__pow__] allows, and the result has four coefficients again. *)
Lemma pow_returns x e :
  0 <= e -> quartic x -> exists r, __pow__ p ei x e = Ok r /\ quartic r.
Proof.
  intros He. revert x.
  induction e as [e IH] using (well_founded_induction (Z.lt_wf 0)).
  intros x Hx. rewrite pow_unfold.
  destruct (Z.eqb_spec e 0); [eexists; split; reflexivity|].
  destruct (Z.eqb_spec e 1); [eexists; split; [reflexivity|assumption]|].
  destruct (Z.eqb_spec e 2); [now apply mul_quartic|].
  destruct (Z.ltb_spec e 0); [lia|].
  pose proof (Z.mod_pos_bound e 2 ltac:(lia)) as B.
  assert (0 <= e / 2 < e) as Hh by (split; [apply Z.div_pos|apply Z.div_lt]; lia).
  destruct (IH (e mod 2) ltac:(lia) ltac:(lia) x Hx) as (a & -> & Ha).
  destruct (IH (e / 2) ltac:(lia) ltac:(lia) x Hx) as (b & -> & Hb).
  cbn [bind]. rewrite (pow_unfold b 2). cbn [Z.eqb Pos.eqb].
  destruct (mul_quartic b b Hb Hb) as (b2 & -> & Hb2). cbn [bind].
  now apply mul_quartic.
Qed.

End Pow.

(** *** The instance over modulus 7 with tower constant 4 *)

(** C3.  With [p = 7] and [extension_i = 4] the general multiplication
    path gives [EBB([1,2,3,4]) * EBB([5,6,7,8]) == EBB([2,1,3,4])]: the
    product is the element with coefficients 2, 1, 3, 4. *)
Theorem C3_mul_literal :
  (x <- EBBOps.EBB [1; 2; 3; 4] ;; y <- EBBOps.EBB [5; 6; 7; 8] ;;
   EBBOps.mul x y) = EBBOps.EBB [2; 1; 3; 4] /\
  (x <- EBBOps.EBB [1; 2; 3; 4] ;; y <- EBBOps.EBB [5; 6; 7; 8] ;;
   r <- EBBOps.mul x y ;; z <- EBBOps.EBB [2; 1; 3; 4] ;;
   EBBOps.eq r z) = Ok true /\
  (x <- EBBOps.EBB [1; 2; 3; 4] ;; y <- EBBOps.EBB [5; 6; 7; 8] ;;
   EBBOps.mul x y) = Ok (elem 2 1 3 4).
Proof. repeat split. Qed.

(** C2.  Over the toy field ([p = 7], [extension_i = 4]) every nonzero
    element [x] of the quartic extension has [x ** (7**4 - 1)] equal to
    [(1, 0, 0, 0)], in particular
    [EBB([1,2,3,4]) ** (7**4 - 1) == EBB([1,0,0,0])]; here [**] is the
    recursive binary exponentiation: exponent 0 gives [(1, 0, 0, 0)],
    1 gives [x], 2 gives [x * x], and any larger [e] gives
    [x ** (e % 2) * (x ** (e // 2)) ** 2]. *)
Theorem C2_extension_fermat :
  (forall c0 c1 c2 c3 : Z,
     EBBOps.EBB [c0; c1; c2; c3] <> EBBOps.EBB [0; 0; 0; 0] ->
     (x <- EBBOps.EBB [c0; c1; c2; c3] ;; EBBOps.pow x (7 ^ 4 - 1))
     = EBBOps.EBB [1; 0; 0; 0]) /\
  (x <- EBBOps.EBB [1; 2; 3; 4] ;; y <- EBBOps.pow x (7 ^ 4 - 1) ;;
   o <- EBBOps.EBB [1; 0; 0; 0] ;; EBBOps.eq y o) = Ok true /\
  (forall x : t,
     EBBOps.pow x 0 = EBBOps.EBB [1; 0; 0; 0] /\
     EBBOps.pow x 1 = Ok x /\
     EBBOps.pow x 2 = EBBOps.mul x x /\
     forall e : Z, 2 < e ->
       EBBOps.pow x e =
       (a <- EBBOps.pow x (e mod 2) ;; b <- EBBOps.pow x (e / 2) ;;
        b2 <- EBBOps.pow b 2 ;; EBBOps.mul a b2)).
Proof.
  split; [|split].
  - intros c0 c1 c2 c3 Hnz. rewrite EBB_elem in *. cbn [bind].
    assert (forall c, In (c mod 7) residues) as Hin
      by (intros c; apply In_residues, Z.mod_pos_bound; lia).
    pose proof (for_all4_spec _ _ _ _ _ fermat_check_true
                  (Hin c0) (Hin c1) (Hin c2) (Hin c3)) as H.
    cbv beta in H. apply orb_true_iff in H as [Hz|H1].
    + apply is_zero_eq in Hz as (E0 & E1 & E2 & E3).
      rewrite E0, E1, E2, E3 in Hnz. now contradiction Hnz.
    + now apply is_elem_eq in H1.
  - vm_compute. reflexivity.
  - intros x. repeat split.
    intros e He. unfold EBBOps.pow. rewrite pow_unfold.
    destruct (Z.eqb_spec e 0); [lia|]. destruct (Z.eqb_spec e 1); [lia|].
    destruct (Z.eqb_spec e 2); [lia|]. destruct (Z.ltb_spec e 0); [lia|].
    reflexivity.
Qed.

Lemma C2_extension_fermat_witness :
  EBBOps.EBB [1; 2; 3; 4] <> EBBOps.EBB [0; 0; 0; 0] /\
  (x <- EBBOps.EBB [1; 2; 3; 4] ;; EBBOps.pow x (7 ^ 4 - 1))
  = EBBOps.EBB [1; 0; 0; 0] /\
  2 < 7 ^ 4 - 1.
Proof.
  assert (EBBOps.EBB [1; 2; 3; 4] <> EBBOps.EBB [0; 0; 0; 0]) as Hnz
    by (vm_compute; discriminate).
  split; [exact Hnz|]. split; [|reflexivity].
  exact (proj1 C2_extension_fermat 1 2 3 4 Hnz).
Defined.

(** What [inv] gets right: on every nonzero element of the lower half
    of the tower ([c2 = c3 = 0], the scalars among them) the product with
    its [inv] is one. *)
Lemma inv_left_half c0 c1 :
  0 <= c0 < 7 -> 0 <= c1 < 7 -> (c0 <> 0 \/ c1 <> 0) ->
  mul_inv ExtendedBabyMersenneElement.extension_i (elem c0 c1 0 0)
  = Ok (elem 1 0 0 0).
Proof.
  intros H0 H1 Hnz. pose proof inv_check_left_half_true as H.
  unfold inv_check_left_half in H.
  rewrite forallb_forall in H. specialize (H _ (In_residues _ H0)).
  rewrite forallb_forall in H. specialize (H _ (In_residues _ H1)).
  apply orb_true_iff in H as [Hz|H]; [|now apply is_elem_eq].
  apply is_zero_eq in Hz. lia.
Qed.

(** The formula of [inv] is the right one for tower constant 2: with
    [extension_i = 2] in [__mul__], every nonzero element times its
    [inv] is one. *)
Lemma inv_correct_for_constant_2 c0 c1 c2 c3 :
  0 <= c0 < 7 -> 0 <= c1 < 7 -> 0 <= c2 < 7 -> 0 <= c3 < 7 ->
  (c0 <> 0 \/ c1 <> 0 \/ c2 <> 0 \/ c3 <> 0) ->
  mul_inv 2 (elem c0 c1 c2 c3) = Ok (elem 1 0 0 0).
Proof.
  intros H0 H1 H2 H3 Hnz.
  pose proof (for_all4_spec _ _ _ _ _ inv_check_constant_2_true
                (In_residues _ H0) (In_residues _ H1)
                (In_residues _ H2) (In_residues _ H3)) as H.
  cbv beta in H. apply orb_true_iff in H as [Hz|H]; [|now apply is_elem_eq].
  apply is_zero_eq in Hz. lia.
Qed.

(** C1.  The inversion law [x * x.inv() == (1, 0, 0, 0)] does not hold
    in the instance with [extension_i = 4]: on the nonzero element
    [(0, 0, 1, 0)] the method [inv] returns [(0, 0, 4, 6)], and the
    product with it is [(6, 6, 0, 0)], while the power
    [x ** (7**4 - 2)] that the method's comment names is an inverse. *)
Theorem C1_inv_is_not_inverse :
  (x <- EBBOps.EBB [0; 0; 1; 0] ;; EBBOps.inv x) = EBBOps.EBB [0; 0; 4; 6] /\
  (x <- EBBOps.EBB [0; 0; 1; 0] ;; i <- EBBOps.inv x ;; EBBOps.mul x i)
  = EBBOps.EBB [6; 6; 0; 0] /\
  (x <- EBBOps.EBB [0; 0; 1; 0] ;; i <- EBBOps.inv x ;; r <- EBBOps.mul x i ;;
   o <- EBBOps.EBB [1; 0; 0; 0] ;; EBBOps.eq r o) = Ok false /\
  (x <- EBBOps.EBB [0; 0; 1; 0] ;; i <- EBBOps.pow x (7 ^ 4 - 2) ;;
   EBBOps.mul x i) = EBBOps.EBB [1; 0; 0; 0].
Proof. repeat split. Qed.

(** *** The two paths of [__mul__] *)

Create Rewrite HintDb zmod.
#[local] Hint Rewrite Zmod_0_l Z.mul_0_r Z.mul_0_l Z.sub_0_r Z.add_0_r Z.add_0_l
  Z.sub_diag Zmod_mod Zmult_mod_idemp_r Zmult_mod_idemp_l : zmod.

(** C9.  The scalar path of [__mul__] agrees with its general path: for
    an element [x] with four coefficients, multiplying by an integer [n]
    (or by a base element [c]) coefficient by coefficient gives the same
    element as multiplying [x] by the embedded scalar [(n, 0, 0, 0)]
    (or [(c, 0, 0, 0)]) through the tower formula. *)
Theorem C9_scalar_path_agrees (p ei : Z) (a0 a1 a2 a3 c : F) (n : Z) :
  let x := mk [a0; a1; a2; a3] p in
  __mul__ p ei x (VInt n)
  = (y <- __init__ p (VInt n) ;; __mul__ p ei x (VExt y)) /\
  __mul__ p ei x (VBase c)
  = (y <- __init__ p (VBase c) ;; __mul__ p ei x (VExt y)).
Proof.
  destruct a0 as [v0], a1 as [v1], a2 as [v2], a3 as [v3], c as [w].
  split; cbv -[Z.add Z.sub Z.mul Z.modulo];
    autorewrite with zmod; reflexivity.
Qed.

(** *** Construction *)

Section Construction.
Import ConstructionSpec.
Variable p : Z.

Lemma mapM_subclass_coercible l :
  forallb coercible l = true ->
  exists fs, mapM (subclass p) l = Ok fs /\ length fs = length l.
Proof.
  induction l as [|v l IH]; simpl; intros H.
  - exists []. split; reflexivity.
  - apply andb_true_iff in H as [Hv Hl].
    destruct (IH Hl) as (fs & Hfs & Hlen). rewrite Hfs.
    destruct v; try discriminate Hv; simpl;
      eexists; (split; [reflexivity|]); simpl; now rewrite Hlen.
Qed.

End Construction.

(** C4 (as stated, refuted).  Not every argument outside the admissible
    ones is rejected: the two-item list [[1, 2]] is none of an integer, a
    field element or a sequence of four coercible items, and [EBB([1, 2])]
    still returns an element. *)
Lemma C4_counterexample :
  ~ (forall v : pyval,
       ConstructionSpec.admissible v = false ->
       exists e : exn, __init__ BabyMersenneElement.modulus v = Raise e).
Proof.
  intros H.
  destruct (H (VList [VInt 1; VInt 2]) eq_refl) as [e He].
  vm_compute in He. discriminate He.
Qed.

(** C4 (amended).  [_to_list] dispatches on the type of its argument
    only.  An argument that is not an integer, not a base or extension
    element of the field and not a list raises the incompatible-value
    exception.  A list is not checked for length: every non-empty list
    of integers and base elements, of any length, is accepted and gives
    an element with one coefficient per item; the empty list fails with
    an [IndexError]. *)
Theorem C4_construction_errors (p : Z) :
  (forall v : pyval,
     ConstructionSpec.dispatched v = false -> __init__ p v = Raise Exception_) /\
  (p <> 0 ->
   forall l : list pyval,
     l <> [] -> forallb ConstructionSpec.coercible l = true ->
     exists x : t, __init__ p (VList l) = Ok x /\
                   length (value x) = length l) /\
  __init__ p (VList []) = Raise IndexError.
Proof.
  split; [|split].
  - intros v Hv. destruct v; try discriminate Hv; reflexivity.
  - intros _ l Hne Hl.
    destruct (mapM_subclass_coercible p l Hl) as (fs & Hfs & Hlen).
    unfold __init__, _to_list. rewrite Hfs. cbn [bind].
    destruct fs as [|f fs].
    + destruct l; [contradiction|discriminate Hlen].
    + eexists; split; [reflexivity|]. exact Hlen.
  - reflexivity.
Qed.

Lemma C4_construction_errors_witness :
  ConstructionSpec.dispatched VNone = false /\
  __init__ 7 VNone = Raise Exception_ /\
  7 <> 0 /\
  [VInt 1; VInt 2] <> [] /\
  forallb ConstructionSpec.coercible [VInt 1; VInt 2] = true /\
  (exists x : t, __init__ 7 (VList [VInt 1; VInt 2]) = Ok x /\
                 length (value x) = 2%nat) /\
  __init__ 7 (VList []) = Raise IndexError.
Proof.
  destruct (C4_construction_errors 7) as (H1 & H2 & H3).
  split; [reflexivity|]. split; [exact (H1 VNone eq_refl)|].
  split; [discriminate|].
  split; [discriminate|]. split; [reflexivity|].
  split; [|exact H3].
  exact (H2 ltac:(discriminate) [VInt 1; VInt 2] ltac:(discriminate) eq_refl).
Defined.

(** *** Byte encodings *)

Lemma list_eq_refl (l : list F) :
  list_eq (fun a b => FieldElement.__eq__ a (FieldElement.OElem b)) l l = true.
Proof.
  induction l as [|a l IH]; simpl; [reflexivity|].
  rewrite IH. unfold FieldElement.__eq__; simpl. now rewrite Z.eqb_refl.
Qed.

Lemma FieldElement_to_bytes a p :
  0 < p <= 2 ^ 32 -> FieldElement.reduced p a ->
  FieldElement.to_bytes a = Ok (Builtins.le_digits 4 (FieldElement.value a)).
Proof.
  intros Hp Ha. unfold FieldElement.to_bytes.
  apply BuiltinsFacts.int_to_bytes_fits.
  unfold FieldElement.reduced in Ha. change (256 ^ Z.of_nat 4) with (2 ^ 32). lia.
Qed.

Lemma FieldElement_of_digits a p :
  0 < p <= 2 ^ 32 -> FieldElement.reduced p a ->
  FieldElement.of_int p
    (Builtins.int_from_bytes (Builtins.le_digits 4 (FieldElement.value a))) = a.
Proof.
  intros Hp Ha. rewrite BuiltinsFacts.int_from_le_digits.
  change (256 ^ Z.of_nat 4) with (2 ^ 32).
  unfold FieldElement.reduced in Ha.
  rewrite Z.mod_small by lia.
  now apply FieldElementFacts.of_int_of_reduced.
Qed.

(** C7.  Byte round trip, for a modulus that fits four bytes
    ([0 < p <= 2^32]).  A base element [a] encodes to exactly four bytes,
    byte [i] being digit [i] of [a.value] in base 256 (little-endian),
    and [from_bytes(to_bytes(a)) == a].  An extension element [x]
    encodes to the sixteen bytes obtained by concatenating the encodings
    of [c0], [c1], [c2], [c3] in this order, and
    [from_bytes(to_bytes(x)) == x]. *)
Theorem C7_bytes_roundtrip (p : Z) (Hp : 0 < p <= 2 ^ 32) :
  (forall a : F, FieldElement.reduced p a ->
     exists bs : list byte,
       FieldElement.to_bytes a = Ok bs /\
       length bs = 4%nat /\
       map Builtins.Z_of_byte bs =
         (let v := FieldElement.value a in
          [v mod 256; v / 256 mod 256; v / 256 ^ 2 mod 256; v / 256 ^ 3 mod 256]) /\
       FieldElement.from_bytes p bs = a /\
       FieldElement.__eq__ (FieldElement.from_bytes p bs) (FieldElement.OElem a)
         = true) /\
  (forall a0 a1 a2 a3 : F,
     FieldElement.reduced p a0 -> FieldElement.reduced p a1 ->
     FieldElement.reduced p a2 -> FieldElement.reduced p a3 ->
     let x := mk [a0; a1; a2; a3] p in
     exists b0 b1 b2 b3 : list byte,
       FieldElement.to_bytes a0 = Ok b0 /\ FieldElement.to_bytes a1 = Ok b1 /\
       FieldElement.to_bytes a2 = Ok b2 /\ FieldElement.to_bytes a3 = Ok b3 /\
       to_bytes x = Ok (b0 ++ b1 ++ b2 ++ b3) /\
       length (b0 ++ b1 ++ b2 ++ b3) = 16%nat /\
       from_bytes p (b0 ++ b1 ++ b2 ++ b3) = Ok x /\
       (y <- from_bytes p (b0 ++ b1 ++ b2 ++ b3) ;; __eq__ p y (VExt x)) = Ok true).
Proof.
  split.
  - intros a Ha. exists (Builtins.le_digits 4 (FieldElement.value a)).
    split; [now apply (FieldElement_to_bytes a p)|].
    split; [apply BuiltinsFacts.le_digits_length|].
    assert (FieldElement.from_bytes p (Builtins.le_digits 4 (FieldElement.value a)) = a)
      as Hrt by (unfold FieldElement.from_bytes; now apply FieldElement_of_digits).
    split; [|split; [exact Hrt|]].
    + rewrite BuiltinsFacts.le_digits_4. cbn [map].
      rewrite !BuiltinsFacts.Z_of_byte_of_Z by (apply Z.mod_pos_bound; lia).
      cbv zeta. rewrite !Z.div_div by lia. reflexivity.
    + rewrite Hrt. unfold FieldElement.__eq__; simpl. apply Z.eqb_refl.
  - intros a0 a1 a2 a3 H0 H1 H2 H3 x.
    exists (Builtins.le_digits 4 (FieldElement.value a0)),
           (Builtins.le_digits 4 (FieldElement.value a1)),
           (Builtins.le_digits 4 (FieldElement.value a2)),
           (Builtins.le_digits 4 (FieldElement.value a3)).
    pose proof (FieldElement_to_bytes a0 p Hp H0) as T0.
    pose proof (FieldElement_to_bytes a1 p Hp H1) as T1.
    pose proof (FieldElement_to_bytes a2 p Hp H2) as T2.
    pose proof (FieldElement_to_bytes a3 p Hp H3) as T3.
    do 4 (split; [assumption|]).
    assert (from_bytes p
              (Builtins.le_digits 4 (FieldElement.value a0) ++
               Builtins.le_digits 4 (FieldElement.value a1) ++
               Builtins.le_digits 4 (FieldElement.value a2) ++
               Builtins.le_digits 4 (FieldElement.value a3)) = Ok x) as Hrt.
    { pose proof (FieldElement_of_digits a0 p Hp H0) as R0.
      pose proof (FieldElement_of_digits a1 p Hp H1) as R1.
      pose proof (FieldElement_of_digits a2 p Hp H2) as R2.
      pose proof (FieldElement_of_digits a3 p Hp H3) as R3.
      rewrite BuiltinsFacts.le_digits_4 in R0, R1, R2, R3.
      rewrite !BuiltinsFacts.le_digits_4.
      unfold from_bytes, __init__, _to_list.
      cbn [map mapM subclass bind app Builtins.slice Nat.sub Nat.add firstn skipn].
      unfold FieldElement.__init__, FieldElement.othervalue.
      unfold FieldElement.of_int, FieldElement.__init__,
        FieldElement.othervalue in R0, R1, R2, R3.
      rewrite R0, R1, R2, R3. reflexivity. }
    split; [|split; [|split; [exact Hrt|]]].
    + unfold to_bytes, x. cbn [value mapM]. rewrite T0, T1, T2, T3.
      cbn [bind concat]. now rewrite app_nil_r.
    + rewrite !length_app, !BuiltinsFacts.le_digits_length. reflexivity.
    + rewrite Hrt. cbn [bind]. unfold __eq__, _to_list. cbn [bind].
      now rewrite list_eq_refl.
Qed.

Lemma C7_bytes_roundtrip_witness :
  0 < 7 <= 2 ^ 32 /\ FieldElement.reduced 7 (BB 3) /\
  (exists bs : list byte,
     FieldElement.to_bytes (BB 3) = Ok bs /\ FieldElement.from_bytes 7 bs = BB 3) /\
  FieldElement.reduced 7 (BB 1) /\ FieldElement.reduced 7 (BB 2) /\
  FieldElement.reduced 7 (BB 4) /\
  (exists bs : list byte,
     to_bytes (elem 1 2 3 4) = Ok bs /\ length bs = 16%nat /\
     from_bytes 7 bs = Ok (elem 1 2 3 4)).
Proof.
  assert (0 < 7 <= 2 ^ 32) as Hp by (split; [reflexivity | discriminate]).
  assert (forall n, FieldElement.reduced 7 (BB n)) as Hr
    by (intros n; apply FieldElementFacts.of_int_reduced; reflexivity).
  destruct (C7_bytes_roundtrip 7 Hp) as [Hb He].
  split; [exact Hp|]. split; [apply Hr|].
  split.
  { destruct (Hb (BB 3) (Hr 3)) as (bs & Hbs & _ & _ & Hrt & _).
    exists bs. split; assumption. }
  split; [apply Hr|]. split; [apply Hr|]. split; [apply Hr|].
  destruct (He (BB 1) (BB 2) (BB 3) (BB 4) (Hr 1) (Hr 2) (Hr 3) (Hr 4))
    as (b0 & b1 & b2 & b3 & _ & _ & _ & _ & Ht & Hl & Hrt & _).
  exists (b0 ++ b1 ++ b2 ++ b3). repeat split; assumption.
Defined.

End ExtendedFieldElementFacts.

(* ===================================================================== *)
(** * Further properties of the code *)

(** ** Reasoning modulo the modulus *)

Module Congruence.
Import Reference.

#[export] Instance cong_equiv p : Equivalence (cong p).
Proof. split; unfold cong; congruence. Qed.

#[export] Instance cong_add p : Proper (cong p ==> cong p ==> cong p) Z.add.
Proof.
  intros a a' Ha b b' Hb. unfold cong in *.
  now rewrite Zplus_mod, Ha, Hb, <- Zplus_mod.
Qed.

#[export] Instance cong_sub p : Proper (cong p ==> cong p ==> cong p) Z.sub.
Proof.
  intros a a' Ha b b' Hb. unfold cong in *.
  now rewrite Zminus_mod, Ha, Hb, <- Zminus_mod.
Qed.

#[export] Instance cong_mul p : Proper (cong p ==> cong p ==> cong p) Z.mul.
Proof.
  intros a a' Ha b b' Hb. unfold cong in *.
  now rewrite Zmult_mod, Ha, Hb, <- Zmult_mod.
Qed.

Lemma cong_mod p a : cong p (a mod p) a.
Proof. unfold cong. apply Zmod_mod. Qed.

Lemma cong_of_eq p a b : a = b -> cong p a b.
Proof. now intros ->. Qed.

Lemma cong_small p a b : 0 <= a < p -> 0 <= b < p -> cong p a b -> a = b.
Proof. unfold cong. intros Ha Hb H. now rewrite !Z.mod_small in H. Qed.

(** Closes [cong p a b] when [a] and [b] agree as polynomials once the
    inner reductions are dropped. *)
Ltac cong_ring :=
  rewrite ?cong_mod; apply cong_of_eq; ring.

End Congruence.

(** ** Algebra of the base field *)

Module FieldElementAlgebra.
Import FieldElement Reference Congruence.

Lemma mk_cong p X Y : cong p X Y -> mk (X mod p) = mk (Y mod p).
Proof. unfold cong. now intros ->. Qed.

Lemma mk_reduced p a : reduced p a -> a = mk (value a mod p).
Proof.
  destruct a as [v]. unfold reduced; simpl. intros H.
  now rewrite Z.mod_small.
Qed.

Lemma neg_eq p a : 0 < p -> __neg__ p a = mk ((- value a) mod p).
Proof.
  intros Hp. pose proof (FieldElementFacts.neg_value p a Hp) as H.
  destruct (__neg__ p a) as [v]. simpl in H. now subst.
Qed.

Ltac fe_unfold :=
  unfold __radd__, __rmul__, __add__, __sub__, __mul__, of_int, __init__;
  cbn [value othervalue].

(** Closes an equation between two results of [+], [-], [*] and unary
    [-] on elements and ints. *)
Ltac fe_ring :=
  fe_unfold; apply mk_cong; cong_ring.

(** X1.  Addition makes the reduced elements an abelian group: [+] is
    commutative and associative, [0] is neutral, [-a] is the opposite of
    [a], and [a - b] is [a + (-b)]. *)
Theorem add_abelian_group (p : Z) (a b c : t) (Ha : reduced p a) :
  __add__ p a (OElem b) = __add__ p b (OElem a) /\
  __add__ p (__add__ p a (OElem b)) (OElem c)
    = __add__ p a (OElem (__add__ p b (OElem c))) /\
  __add__ p a (OElem (of_int p 0)) = a /\
  __add__ p a (OElem (__neg__ p a)) = of_int p 0 /\
  __sub__ p a (OElem b) = __add__ p a (OElem (__neg__ p b)).
Proof.
  assert (0 < p) as Hp by (unfold reduced in Ha; lia).
  rewrite !neg_eq by assumption.
  split; [fe_ring|]. split; [fe_ring|].
  split; [rewrite (mk_reduced p a Ha) at 2; fe_ring|].
  split; fe_ring.
Qed.

Lemma add_abelian_group_witness :
  reduced 7 (BB 3) /\
  __add__ 7 (BB 3) (OElem (BB 5)) = __add__ 7 (BB 5) (OElem (BB 3)) /\
  __add__ 7 (BB 3) (OElem (__neg__ 7 (BB 3))) = of_int 7 0.
Proof.
  assert (reduced 7 (BB 3)) as H3 by (apply FieldElementFacts.of_int_reduced; reflexivity).
  split; [exact H3|].
  destruct (add_abelian_group 7 (BB 3) (BB 5) (BB 1) H3) as (Hc & _ & _ & Hn & _).
  split; assumption.
Defined.

(** X2.  Multiplication makes the reduced elements a commutative ring
    with [+]: [*] is commutative and associative, [1] is neutral, [0]
    absorbs, and [*] distributes over [+]. *)
Theorem mul_commutative_ring (p : Z) (a b c : t) (Ha : reduced p a) :
  __mul__ p a (OElem b) = __mul__ p b (OElem a) /\
  __mul__ p (__mul__ p a (OElem b)) (OElem c)
    = __mul__ p a (OElem (__mul__ p b (OElem c))) /\
  __mul__ p a (OElem (of_int p 1)) = a /\
  __mul__ p a (OElem (of_int p 0)) = of_int p 0 /\
  __mul__ p a (OElem (__add__ p b (OElem c)))
    = __add__ p (__mul__ p a (OElem b)) (OElem (__mul__ p a (OElem c))).
Proof.
  split; [fe_ring|]. split; [fe_ring|].
  split; [rewrite (mk_reduced p a Ha) at 2; fe_ring|].
  split; fe_ring.
Qed.

Lemma mul_commutative_ring_witness :
  reduced 7 (BB 3) /\
  __mul__ 7 (BB 3) (OElem (BB 5)) = __mul__ 7 (BB 5) (OElem (BB 3)) /\
  __mul__ 7 (BB 3) (OElem (of_int 7 1)) = BB 3.
Proof.
  assert (reduced 7 (BB 3)) as H3 by (apply FieldElementFacts.of_int_reduced; reflexivity).
  split; [exact H3|].
  destruct (mul_commutative_ring 7 (BB 3) (BB 5) (BB 1) H3) as (Hc & _ & H1 & _).
  split; assumption.
Defined.

(** X3.  An int operand acts as the element it reduces to: [a + n],
    [a - n], [a * n] and [a / n] give what the same operation gives on
    [FieldElement(n)], on either side of [+] and [*]; only [==] treats
    the int differently. *)
Theorem int_operand_as_element (p : Z) (a : t) (n : Z) :
  __add__ p a (OInt n) = __add__ p a (OElem (of_int p n)) /\
  __sub__ p a (OInt n) = __sub__ p a (OElem (of_int p n)) /\
  __mul__ p a (OInt n) = __mul__ p a (OElem (of_int p n)) /\
  __radd__ p a (OInt n) = __add__ p (of_int p n) (OElem a) /\
  __rmul__ p a (OInt n) = __mul__ p (of_int p n) (OElem a) /\
  __truediv__ p a (OInt n) = __truediv__ p a (OElem (of_int p n)).
Proof.
  repeat split; try fe_ring.
Qed.


(** *** Division and powers *)

Lemma inverse_unique p a b b' :
  0 < p -> 0 <= b < p -> 0 <= b' < p ->
  (a * b) mod p = 1 -> (a * b') mod p = 1 -> b = b'.
Proof.
  intros Hp Hb Hb' H H'.
  apply (cong_small p); try assumption.
  assert (cong p (b * (a * b')) b) as E1.
  { transitivity (b * ((a * b') mod p)); [cong_ring|]. rewrite H'. cong_ring. }
  assert (cong p (b * (a * b')) b') as E2.
  { transitivity (((a * b) mod p) * b'); [cong_ring|]. rewrite H. cong_ring. }
  now rewrite <- E1, E2.
Qed.

(** X4.  On a prime modulus division undoes multiplication: for reduced
    [a] and a nonzero reduced [b], [a / b] returns, [(a / b) * b] is [a]
    again and [(a * b) / b] is [a]. *)
Theorem truediv_cancels (p : Z) (Hp : Z.prime p) (a b : t)
    (Ha : reduced p a) (Hb : reduced p b) (Hnz : value b <> 0) :
  (exists q : t, __truediv__ p a (OElem b) = Ok q /\
                 __mul__ p q (OElem b) = a) /\
  __truediv__ p (__mul__ p a (OElem b)) (OElem b) = Ok a.
Proof.
  pose proof (Z.prime_ge_2 _ Hp) as H2.
  unfold __truediv__. rewrite (FieldElementFacts.inv_prime p b Hp Hb).
  destruct (Z.eqb_spec (value b) 0) as [E|_]; [contradiction|]. cbn [bind].
  assert ((value b * Z.invmod (value b) p) mod p = 1) as Hi
    by (apply FieldElementFacts.invmod_inverse; [assumption|unfold reduced in Hb; lia]).
  assert (forall v, cong p (v * Z.invmod (value b) p * value b) v) as Hc.
  { intros v. transitivity (v * ((value b * Z.invmod (value b) p) mod p)); [cong_ring|].
    rewrite Hi. cong_ring. }
  split.
  - eexists; split; [reflexivity|].
    rewrite (mk_reduced p a Ha) at 2. fe_unfold. apply mk_cong.
    rewrite !cong_mod. apply Hc.
  - f_equal. rewrite (mk_reduced p a Ha) at 2. fe_unfold. apply mk_cong.
    rewrite !cong_mod. rewrite <- (Hc (value a)) at 2. apply cong_of_eq; ring.
Qed.

Lemma truediv_cancels_witness :
  Z.prime 7 /\ reduced 7 (BB 3) /\ reduced 7 (BB 5) /\ value (BB 5) <> 0 /\
  (exists q : t, __truediv__ 7 (BB 3) (OElem (BB 5)) = Ok q /\
                 __mul__ 7 q (OElem (BB 5)) = BB 3).
Proof.
  assert (forall n, reduced 7 (BB n)) as Hr
    by (intros n; apply FieldElementFacts.of_int_reduced; reflexivity).
  assert (value (BB 5) <> 0) as Hnz by discriminate.
  split; [exact FieldElementFacts.prime_7|].
  split; [apply Hr|]. split; [apply Hr|]. split; [exact Hnz|].
  exact (proj1 (truediv_cancels 7 FieldElementFacts.prime_7 (BB 3) (BB 5)
                  (Hr 3) (Hr 5) Hnz)).
Defined.

(** X5.  Dividing by zero does not raise: whatever the modulus and the
    dividend, [a / 0] is the zero element, for the element zero and for
    the int [0] alike, because [inv] of zero is zero. *)
Theorem truediv_by_zero (p : Z) (a : t) :
  __truediv__ p a (OElem (mk 0)) = Ok (mk 0) /\
  __truediv__ p a (OInt 0) = Ok (mk 0) /\
  inv p (mk 0) = Ok (mk 0).
Proof.
  unfold __truediv__, inv, of_int, __init__, __mul__. cbn.
  rewrite Z.mul_0_r. repeat split.
Qed.

(** X6.  Powers with non-negative exponents: on a modulus above 1 the
    exponent 0 gives one for every base, zero included; exponent 1 gives
    back a reduced base; and exponents add and multiply as they should,
    [a ** (m + n) = a ** m * a ** n] and [a ** (m * n) = (a ** m) ** n]. *)
Theorem pow_laws (p : Z) (Hp : 1 < p) (a : t) (m n : Z)
    (Hm : 0 <= m) (Hn : 0 <= n) :
  __pow__ p a 0 = Ok (mk 1) /\
  (reduced p a -> __pow__ p a 1 = Ok a) /\
  __pow__ p a (m + n)
    = (x <- __pow__ p a m ;; y <- __pow__ p a n ;; Ok (__mul__ p x (OElem y))) /\
  __pow__ p a (m * n) = (x <- __pow__ p a m ;; __pow__ p x n).
Proof.
  rewrite !FieldElementFacts.pow_nonneg by lia. cbn [bind value].
  rewrite !FieldElementFacts.pow_nonneg by lia. cbn [value].
  split; [now rewrite Z.pow_0_r, Z.mod_1_l by lia|].
  split; [intros Ha; now rewrite Z.pow_1_r, <- mk_reduced|].
  split; f_equal.
  - rewrite Z.pow_add_r by lia. fe_unfold. apply mk_cong. cong_ring.
  - rewrite Z.pow_mul_r by lia. f_equal. symmetry. apply Z.mod_pow_l.
Qed.

Lemma pow_laws_witness :
  1 < 7 /\ 0 <= 2 /\ 0 <= 3 /\
  __pow__ 7 (mk 0) 0 = Ok (mk 1) /\
  __pow__ 7 (BB 3) (2 + 3)
    = (x <- __pow__ 7 (BB 3) 2 ;; y <- __pow__ 7 (BB 3) 3 ;;
       Ok (__mul__ 7 x (OElem y))).
Proof.
  assert (0 <= 2) as H2 by discriminate. assert (0 <= 3) as H3 by discriminate.
  assert (1 < 7) as H7 by reflexivity.
  split; [exact H7|]. split; [exact H2|]. split; [exact H3|].
  split.
  - exact (proj1 (pow_laws 7 H7 (mk 0) 2 3 H2 H3)).
  - exact (proj1 (proj2 (proj2 (pow_laws 7 H7 (BB 3) 2 3 H2 H3)))).
Defined.

(** X7.  Negative exponents on a prime modulus: for a nonzero reduced
    [a], [a ** -1] is [a.inv()] and [a ** -n] is [a.inv() ** n]; but for
    zero the two part ways, [0 ** -1] raises [ValueError] where
    [inv] returns zero. *)
Theorem pow_negative (p : Z) (Hp : Z.prime p) (a : t) (n : Z)
    (Ha : reduced p a) (Hnz : value a <> 0) (Hn : 0 < n) :
  __pow__ p a (-1) = inv p a /\
  __pow__ p a (- n) = (i <- inv p a ;; __pow__ p i n) /\
  __pow__ p (mk 0) (-1) = Raise ValueError /\
  inv p (mk 0) = Ok (mk 0).
Proof.
  pose proof (Z.prime_ge_2 _ Hp) as H2.
  assert (Z.gcd (value a) p = 1) as G.
  { rewrite Z.gcd_comm. apply Z.coprime_prime_small; [assumption|].
    unfold reduced in Ha. lia. }
  split; [|split; [|split]].
  - unfold inv, __pow__. destruct (Z.eqb_spec (value a) 0); [contradiction|].
    reflexivity.
  - rewrite (FieldElementFacts.inv_prime p a Hp Ha).
    destruct (Z.eqb_spec (value a) 0); [contradiction|]. cbn [bind].
    rewrite (FieldElementFacts.pow_nonneg p (mk (Z.invmod (value a) p)) n) by lia.
    cbn [value]. unfold __pow__, Builtins.pow3.
    destruct (Z.eqb_spec p 0); [lia|].
    destruct (Z.ltb_spec (- n) 0); [|lia].
    rewrite G. cbn [Z.eqb Pos.eqb bind]. rewrite Z.opp_involutive.
    unfold of_int, __init__. cbn [othervalue]. now rewrite Zmod_mod.
  - unfold __pow__, Builtins.pow3.
    destruct (Z.eqb_spec p 0); [lia|]. cbn [value Z.ltb Z.compare Z.opp].
    rewrite Z.gcd_0_l, Z.abs_eq by lia.
    destruct (Z.eqb_spec p 1); [lia|]. reflexivity.
  - reflexivity.
Qed.

Lemma pow_negative_witness :
  Z.prime 7 /\ reduced 7 (BB 3) /\ value (BB 3) <> 0 /\ 0 < 2 /\
  __pow__ 7 (BB 3) (-1) = inv 7 (BB 3) /\
  __pow__ 7 (mk 0) (-1) = Raise ValueError.
Proof.
  assert (reduced 7 (BB 3)) as H3 by (apply FieldElementFacts.of_int_reduced; reflexivity).
  assert (value (BB 3) <> 0) as Hnz by discriminate.
  assert (0 < 2) as H2 by reflexivity.
  split; [exact FieldElementFacts.prime_7|]. split; [exact H3|].
  split; [exact Hnz|]. split; [exact H2|].
  destruct (pow_negative 7 FieldElementFacts.prime_7 (BB 3) 2 H3 Hnz H2)
    as (H & _ & H0 & _).
  split; assumption.
Defined.

(** X8.  Fermat's little theorem at the interface: on a prime modulus a
    nonzero reduced [a] has [a ** (p - 1)] equal to one, and the Fermat
    power [a ** (p - 2)] is exactly what [inv] returns. *)
Theorem fermat_inverse (p : Z) (Hp : Z.prime p) (a : t)
    (Ha : reduced p a) (Hnz : value a <> 0) :
  __pow__ p a (p - 1) = Ok (mk 1) /\
  __pow__ p a (p - 2) = inv p a.
Proof.
  pose proof (Z.prime_ge_2 _ Hp) as H2.
  assert (1 <= value a < p) as Hv by (unfold reduced in Ha; lia).
  assert (value a mod p <> 0) as Hm by (rewrite Z.mod_small; lia).
  rewrite !FieldElementFacts.pow_nonneg by lia.
  rewrite (FieldElementFacts.inv_prime p a Hp Ha).
  destruct (Z.eqb_spec (value a) 0); [contradiction|].
  split; do 2 f_equal.
  - now apply Z.fermat_nz.
  - apply (inverse_unique p (value a)); try lia.
    + apply Z.mod_pos_bound; lia.
    + apply FieldElementFacts.invmod_range; lia.
    + rewrite Z.mul_mod_idemp_r by lia.
      rewrite <- (Z.pow_1_r (value a)) at 1.
      rewrite <- Z.pow_add_r by lia.
      replace (1 + (p - 2)) with (p - 1) by ring.
      now apply Z.fermat_nz.
    + now apply FieldElementFacts.invmod_inverse.
Qed.

Lemma fermat_inverse_witness :
  Z.prime 7 /\ reduced 7 (BB 3) /\ value (BB 3) <> 0 /\
  __pow__ 7 (BB 3) (7 - 1) = Ok (mk 1) /\
  __pow__ 7 (BB 3) (7 - 2) = inv 7 (BB 3).
Proof.
  assert (reduced 7 (BB 3)) as H3 by (apply FieldElementFacts.of_int_reduced; reflexivity).
  assert (value (BB 3) <> 0) as Hnz by discriminate.
  split; [exact FieldElementFacts.prime_7|]. split; [exact H3|].
  split; [exact Hnz|].
  exact (fermat_inverse 7 FieldElementFacts.prime_7 (BB 3) H3 Hnz).
Defined.


(** *** Square roots of non-residues *)

(** X9.  On a prime modulus [p = 3 (mod 4)], [sqrt] returns for every
    reduced [a], residue or not, and never raises: the returned [c] is
    reduced and squares to [a] or to [-a]. *)
Theorem sqrt_up_to_sign (p : Z) (Hp : Z.prime p) (H34 : p mod 4 = 3)
    (a : t) (Ha : reduced p a) :
  exists c : t,
    sqrt p a = Ok c /\ reduced p c /\
    (__eq__ (__mul__ p c (OElem c)) (OElem a) = true \/
     __eq__ (__mul__ p c (OElem c)) (OElem (__neg__ p a)) = true).
Proof.
  pose proof (Z.prime_ge_2 _ Hp) as H2.
  destruct a as [v]. unfold reduced in Ha; cbn [value] in Ha.
  set (k := (p + 1) / 4).
  assert (p + 1 = 4 * k) as Hpk.
  { unfold k. pose proof (Z.div_mod p 4 ltac:(lia)) as D. rewrite H34 in D.
    replace (p + 1) with ((p / 4 + 1) * 4) by lia.
    rewrite Z.div_mul by lia. lia. }
  assert (0 <= k) as Hk by lia.
  exists (mk (v ^ k mod p)).
  split; [unfold sqrt; rewrite H34; cbn [Z.eqb Pos.eqb];
          now rewrite FieldElementFacts.pow_nonneg by lia|].
  split; [unfold reduced; cbn [value]; apply Z.mod_pos_bound; lia|].
  rewrite neg_eq by lia. unfold __eq__. rewrite FieldElementFacts.mul_value.
  cbn [value othervalue]. rewrite !Z.eqb_eq.
  set (s := (v ^ k mod p * (v ^ k mod p)) mod p).
  assert (0 <= s < p) as Hs by (apply Z.mod_pos_bound; lia).
  assert (cong p (s * s) (v * v)) as Hsq.
  { unfold s. rewrite !cong_mod.
    transitivity (v ^ p * v).
    - apply cong_of_eq.
      replace (v ^ p * v) with (v ^ (p + 1))
        by (rewrite Z.pow_add_r, Z.pow_1_r by lia; reflexivity).
      rewrite Hpk. replace (4 * k) with (k + k + (k + k)) by ring.
      rewrite !Z.pow_add_r by lia. ring.
    - assert (cong p (v ^ p) v) as F by (apply Z.fermat; assumption).
      now rewrite F. }
  assert ((p | (s - v) * (s + v))) as Hd.
  { apply Z.mod_divide; [lia|].
    change (cong p ((s - v) * (s + v)) 0).
    transitivity (s * s - v * v); [apply cong_of_eq; ring|].
    rewrite Hsq. apply cong_of_eq; ring. }
  apply Z.divide_prime_mul in Hd; [|assumption].
  destruct Hd as [Hd|Hd]; apply Z.mod_divide in Hd; try lia.
  - left. apply (cong_small p); try lia.
    transitivity (v + (s - v) mod p); [rewrite cong_mod; apply cong_of_eq; ring|].
    rewrite Hd. apply cong_of_eq; ring.
  - right. apply (cong_small p); try lia; [apply Z.mod_pos_bound; lia|].
    rewrite cong_mod.
    transitivity (- v + (s + v) mod p); [rewrite cong_mod; apply cong_of_eq; ring|].
    rewrite Hd. apply cong_of_eq; ring.
Qed.

Lemma sqrt_up_to_sign_witness :
  Z.prime 7 /\ 7 mod 4 = 3 /\ reduced 7 (BB 3) /\
  exists c : t,
    sqrt 7 (BB 3) = Ok c /\ reduced 7 c /\
    (__eq__ (__mul__ 7 c (OElem c)) (OElem (BB 3)) = true \/
     __eq__ (__mul__ 7 c (OElem c)) (OElem (__neg__ 7 (BB 3))) = true).
Proof.
  assert (reduced 7 (BB 3)) as H3 by (apply FieldElementFacts.of_int_reduced; reflexivity).
  split; [exact FieldElementFacts.prime_7|]. split; [reflexivity|].
  split; [exact H3|].
  exact (sqrt_up_to_sign 7 FieldElementFacts.prime_7 eq_refl (BB 3) H3).
Defined.

(** *** Decoding bytes *)

Lemma byte_of_Z_of_byte b : Builtins.byte_of_Z (Builtins.Z_of_byte b) = b.
Proof.
  unfold Builtins.byte_of_Z, Builtins.Z_of_byte.
  now rewrite N2Z.id, Byte.of_to_N.
Qed.

Lemma Z_of_byte_range b : 0 <= Builtins.Z_of_byte b < 256.
Proof.
  unfold Builtins.Z_of_byte. pose proof (Byte.to_N_bounded b). lia.
Qed.

Lemma int_from_bytes_range bs :
  0 <= Builtins.int_from_bytes bs < 256 ^ Z.of_nat (length bs).
Proof.
  induction bs as [|b bs IH]; [simpl; lia|].
  cbn [Builtins.int_from_bytes length].
  rewrite Nat2Z.inj_succ, Z.pow_succ_r by lia.
  pose proof (Z_of_byte_range b). lia.
Qed.

Lemma le_digits_from_bytes bs :
  Builtins.le_digits (length bs) (Builtins.int_from_bytes bs) = bs.
Proof.
  induction bs as [|b bs IH]; [reflexivity|].
  cbn [Builtins.int_from_bytes length Builtins.le_digits].
  pose proof (Z_of_byte_range b) as Hb.
  replace ((Builtins.Z_of_byte b + 256 * Builtins.int_from_bytes bs) mod 256)
    with (Builtins.Z_of_byte b).
  2:{ rewrite (Z.mul_comm 256), Z_mod_plus_full, Z.mod_small by lia. reflexivity. }
  replace ((Builtins.Z_of_byte b + 256 * Builtins.int_from_bytes bs) / 256)
    with (Builtins.int_from_bytes bs).
  2:{ rewrite (Z.mul_comm 256), Z_div_plus_full, Z.div_small by lia. lia. }
  now rewrite byte_of_Z_of_byte, IH.
Qed.

(** X10.  [from_bytes] accepts any byte string and never fails: the
    result is reduced, and the empty string decodes to zero.  It does
    not insist on the canonical encoding: for a four-byte string,
    encoding the decoded element gives the string back exactly when the
    little-endian integer it holds is below the modulus. *)
Theorem from_bytes_any_input (p : Z) (Hp : 0 < p <= 2 ^ 32) (bs : list byte) :
  reduced p (from_bytes p bs) /\
  from_bytes p [] = mk 0 /\
  (length bs = 4%nat ->
     (to_bytes (from_bytes p bs) = Ok bs <-> Builtins.int_from_bytes bs < p)).
Proof.
  split; [apply FieldElementFacts.of_int_reduced; lia|].
  split; [reflexivity|].
  intros Hlen. pose proof (int_from_bytes_range bs) as Hr. rewrite Hlen in Hr.
  unfold to_bytes, from_bytes, of_int, __init__. cbn [value othervalue].
  set (n := Builtins.int_from_bytes bs) in *.
  pose proof (Z.mod_pos_bound n p ltac:(lia)) as Hm.
  change (256 ^ Z.of_nat 4) with (2 ^ 32) in Hr.
  rewrite BuiltinsFacts.int_to_bytes_fits
    by (change (256 ^ Z.of_nat 4) with (2 ^ 32); lia).
  split.
  - intros E.
    apply (f_equal (fun r => match r with
                             | Ok l => Builtins.int_from_bytes l
                             | Raise _ => 0
                             end)) in E.
    cbv beta iota in E.
    rewrite BuiltinsFacts.int_from_le_digits in E.
    change (256 ^ Z.of_nat 4) with (2 ^ 32) in E.
    rewrite Z.mod_small in E by lia. fold n in E. lia.
  - intros Hlt. rewrite Z.mod_small by lia. f_equal.
    unfold n. rewrite <- Hlen. apply le_digits_from_bytes.
Qed.

Lemma from_bytes_any_input_witness :
  0 < 7 <= 2 ^ 32 /\ length [x09; x00; x00; x00] = 4%nat /\
  reduced 7 (from_bytes 7 [x09; x00; x00; x00]) /\
  (to_bytes (from_bytes 7 [x09; x00; x00; x00]) = Ok [x09; x00; x00; x00]
   <-> Builtins.int_from_bytes [x09; x00; x00; x00] < 7).
Proof.
  assert (0 < 7 <= 2 ^ 32) as Hp by (split; [reflexivity | discriminate]).
  split; [exact Hp|]. split; [reflexivity|].
  destruct (from_bytes_any_input 7 Hp [x09; x00; x00; x00]) as (H1 & _ & H2).
  split; [exact H1 | exact (H2 eq_refl)].
Defined.

End FieldElementAlgebra.

(** ** Algebra of the quartic extension *)

Module ExtendedFieldElementAlgebra.
Import ExtendedFieldElement Reference Congruence.

#[local] Abbreviation F := FieldElement.t.

(** *** The methods against the reference arithmetic *)

Lemma quad_cong p X0 X1 X2 X3 Y0 Y1 Y2 Y3 :
  cong p X0 Y0 -> cong p X1 Y1 -> cong p X2 Y2 -> cong p X3 Y3 ->
  (X0 mod p, X1 mod p, X2 mod p, X3 mod p)
  = (Y0 mod p, Y1 mod p, Y2 mod p, Y3 mod p).
Proof. unfold cong. now intros -> -> -> ->. Qed.

Lemma elem_cong p X0 X1 X2 X3 Y0 Y1 Y2 Y3 :
  cong p X0 Y0 -> cong p X1 Y1 -> cong p X2 Y2 -> cong p X3 Y3 ->
  elem_of p (X0 mod p, X1 mod p, X2 mod p, X3 mod p)
  = elem_of p (Y0 mod p, Y1 mod p, Y2 mod p, Y3 mod p).
Proof. intros. f_equal. now apply quad_cong. Qed.

Lemma quartic_elem x :
  quartic x -> exists m c, x = elem_of m c.
Proof.
  destruct x as [[|[c0] [|[c1] [|[c2] [|[c3] [|]]]]] m]; try discriminate.
  intros _. now exists m, (c0, c1, c2, c3).
Qed.

Lemma wf_elem p x :
  wf p x <-> exists c, x = elem_of p c /\ reduced4 p c.
Proof.
  split.
  - intros (Hm & Hq & Hr).
    destruct (quartic_elem x Hq) as (m & [[[c0 c1] c2] c3] & ->).
    cbn in Hm. subst m. exists (c0, c1, c2, c3). split; [reflexivity|].
    cbn in Hr. inversion Hr as [|? ? R0 Hr1]; subst.
    inversion Hr1 as [|? ? R1 Hr2]; subst.
    inversion Hr2 as [|? ? R2 Hr3]; subst.
    inversion Hr3 as [|? ? R3 _]; subst.
    cbv [reduced4 FieldElement.reduced FieldElement.value] in *. tauto.
  - intros ([[[c0 c1] c2] c3] & -> & R0 & R1 & R2 & R3).
    split; [reflexivity|]. split; [reflexivity|].
    cbn. repeat (apply Forall_cons; [assumption|]). apply Forall_nil.
Qed.

Lemma reduced4_mod p c0 c1 c2 c3 :
  reduced4 p (c0, c1, c2, c3) ->
  (c0, c1, c2, c3) = (c0 mod p, c1 mod p, c2 mod p, c3 mod p).
Proof.
  intros (R0 & R1 & R2 & R3). now rewrite !Z.mod_small.
Qed.

Lemma reduced4_mods p c0 c1 c2 c3 :
  0 < p -> reduced4 p (c0 mod p, c1 mod p, c2 mod p, c3 mod p).
Proof.
  intros Hp. cbv [reduced4]. repeat split; now apply Z.mod_pos_bound.
Qed.

Ltac ext_eval :=
  cbv -[Z.add Z.sub Z.mul Z.modulo Z.opp Z.pow].

Lemma mul_spec p ei m0 m o0 o :
  __mul__ p ei (elem_of m0 m) (VExt (elem_of o0 o))
  = Ok (elem_of p (mul4 p ei m o)).
Proof.
  destruct m as [[[m1 m2] m3] m4], o as [[[o1 o2] o3] o4].
  ext_eval. f_equal. apply elem_cong; cong_ring.
Qed.

Lemma add_spec p m0 m o0 o :
  __add__ p (elem_of m0 m) (VExt (elem_of o0 o))
  = Ok (elem_of p (add4 p m o)).
Proof.
  destruct m as [[[m1 m2] m3] m4], o as [[[o1 o2] o3] o4].
  ext_eval. f_equal. apply elem_cong; cong_ring.
Qed.

Lemma sub_spec p m0 m o0 o :
  __sub__ p (elem_of m0 m) (VExt (elem_of o0 o))
  = Ok (elem_of p (sub4 p m o)).
Proof.
  destruct m as [[[m1 m2] m3] m4], o as [[[o1 o2] o3] o4].
  ext_eval. f_equal. apply elem_cong; cong_ring.
Qed.

Lemma one_spec p :
  __init__ p (VList (map VInt [1; 0; 0; 0])) = Ok (elem_of p (one4 p)).
Proof. reflexivity. Qed.

(** *** Laws of the reference arithmetic *)

Lemma mul4_comm p ei m o : mul4 p ei m o = mul4 p ei o m.
Proof.
  destruct m as [[[m1 m2] m3] m4], o as [[[o1 o2] o3] o4].
  cbv [mul4]. apply quad_cong; cong_ring.
Qed.

Lemma mul4_assoc p ei a b c :
  mul4 p ei (mul4 p ei a b) c = mul4 p ei a (mul4 p ei b c).
Proof.
  destruct a as [[[a1 a2] a3] a4], b as [[[b1 b2] b3] b4],
           c as [[[c1 c2] c3] c4].
  cbv [mul4]. apply quad_cong; cong_ring.
Qed.

Lemma mul4_one_r p ei c : reduced4 p c -> mul4 p ei c (one4 p) = c.
Proof.
  destruct c as [[[c1 c2] c3] c4]. intros Hc.
  rewrite (reduced4_mod p c1 c2 c3 c4 Hc) at 2.
  cbv [mul4 one4]. apply quad_cong; cong_ring.
Qed.

Lemma mul4_add4 p ei a b c :
  mul4 p ei a (add4 p b c) = add4 p (mul4 p ei a b) (mul4 p ei a c).
Proof.
  destruct a as [[[a1 a2] a3] a4], b as [[[b1 b2] b3] b4],
           c as [[[c1 c2] c3] c4].
  cbv [mul4 add4]. apply quad_cong; cong_ring.
Qed.

Lemma mul4_reduced p ei a b : 0 < p -> reduced4 p (mul4 p ei a b).
Proof.
  destruct a as [[[a1 a2] a3] a4], b as [[[b1 b2] b3] b4]. intros Hp.
  cbv [mul4]. now apply reduced4_mods.
Qed.


Lemma add4_comm p m o : add4 p m o = add4 p o m.
Proof.
  destruct m as [[[m1 m2] m3] m4], o as [[[o1 o2] o3] o4].
  cbv [add4]. apply quad_cong; cong_ring.
Qed.

Lemma add4_assoc p a b c : add4 p (add4 p a b) c = add4 p a (add4 p b c).
Proof.
  destruct a as [[[a1 a2] a3] a4], b as [[[b1 b2] b3] b4],
           c as [[[c1 c2] c3] c4].
  cbv [add4]. apply quad_cong; cong_ring.
Qed.

Lemma add4_zero_r p c : reduced4 p c -> add4 p c (0, 0, 0, 0) = c.
Proof.
  destruct c as [[[c1 c2] c3] c4]. intros Hc.
  rewrite (reduced4_mod p c1 c2 c3 c4 Hc) at 2.
  cbv [add4]. apply quad_cong; cong_ring.
Qed.

Lemma sub4_add4 p a b : reduced4 p a -> sub4 p (add4 p a b) b = a.
Proof.
  destruct a as [[[a1 a2] a3] a4], b as [[[b1 b2] b3] b4]. intros Ha.
  rewrite (reduced4_mod p a1 a2 a3 a4 Ha) at 2.
  cbv [add4 sub4]. apply quad_cong; cong_ring.
Qed.

Lemma sub4_diag p a : sub4 p a a = (0 mod p, 0 mod p, 0 mod p, 0 mod p).
Proof.
  destruct a as [[[a1 a2] a3] a4].
  cbv [sub4]. apply quad_cong; cong_ring.
Qed.

Lemma elem_of_eq m c0 c1 c2 c3 :
  mk [FieldElement.mk c0; FieldElement.mk c1;
      FieldElement.mk c2; FieldElement.mk c3] m
  = elem_of m (c0, c1, c2, c3).
Proof. reflexivity. Qed.

(** Splits on the number of coefficients of an element: four, or not. *)
Ltac by_arity x :=
  destruct x as [[|[?] [|[?] [|[?] [|[?] [|? ?]]]]] ?].

(** *** Ring laws *)

(** X11.  Multiplication of extension elements is commutative and
    associative, for every modulus and tower constant; this holds of
    the outcome as a whole, an operand without four coefficients giving
    the same [ValueError] on both sides. *)
Theorem mul_commutative_associative (p ei : Z) (x y z : t) :
  __mul__ p ei x (VExt y) = __mul__ p ei y (VExt x) /\
  (r <- __mul__ p ei x (VExt y) ;; __mul__ p ei r (VExt z))
  = (r <- __mul__ p ei y (VExt z) ;; __mul__ p ei x (VExt r)).
Proof.
  split.
  - by_arity x; by_arity y;
      first [ rewrite !elem_of_eq, !mul_spec; now rewrite mul4_comm
            | reflexivity ].
  - by_arity x; by_arity y; by_arity z;
      first [ rewrite !elem_of_eq, !mul_spec; cbn [bind];
              now rewrite !mul_spec, mul4_assoc
            | reflexivity ].
Qed.


(** X12.  [(1, 0, 0, 0)] is neutral for the multiplication of
    well-formed elements, on both sides, and multiplication distributes
    over addition. *)
Theorem mul_identity_distributive (p ei : Z) (x y z : t)
    (Hx : wf p x) (Hy : quartic y) (Hz : quartic z) :
  (o <- __init__ p (VList (map VInt [1; 0; 0; 0])) ;; __mul__ p ei x (VExt o))
    = Ok x /\
  (o <- __init__ p (VList (map VInt [1; 0; 0; 0])) ;; __mul__ p ei o (VExt x))
    = Ok x /\
  (s <- __add__ p y (VExt z) ;; __mul__ p ei x (VExt s))
  = (a <- __mul__ p ei x (VExt y) ;; b <- __mul__ p ei x (VExt z) ;;
     __add__ p a (VExt b)).
Proof.
  apply wf_elem in Hx as (c & -> & Hc).
  destruct (quartic_elem y Hy) as (my & cy & ->).
  destruct (quartic_elem z Hz) as (mz & cz & ->).
  rewrite one_spec. cbn [bind].
  rewrite !mul_spec, add_spec. cbn [bind]. rewrite mul_spec, add_spec.
  rewrite (mul4_comm p ei (one4 p) c), mul4_one_r by assumption.
  now rewrite mul4_add4.
Qed.

Lemma mul_identity_distributive_witness :
  wf 7 (Exhaustive.elem 1 2 3 4) /\ quartic (Exhaustive.elem 5 6 0 1) /\
  (o <- __init__ 7 (VList (map VInt [1; 0; 0; 0])) ;;
   __mul__ 7 4 (Exhaustive.elem 1 2 3 4) (VExt o))
  = Ok (Exhaustive.elem 1 2 3 4).
Proof.
  assert (wf 7 (Exhaustive.elem 1 2 3 4)) as Hx.
  { apply wf_elem. exists (1, 2, 3, 4). split; [reflexivity|].
    cbv [reduced4]. lia. }
  assert (quartic (Exhaustive.elem 5 6 0 1)) as Hy by reflexivity.
  split; [exact Hx|]. split; [exact Hy|].
  exact (proj1 (mul_identity_distributive 7 4 _ _ _ Hx Hy Hy)).
Defined.

(** X13.  Addition of extension elements with four coefficients is
    commutative and associative; on a well-formed [x], adding zero
    gives [x] back, and so does adding then subtracting the same [y];
    [x - x] is zero. *)
Theorem add_group_laws (p : Z) (x y z : t)
    (Hx : wf p x) (Hy : quartic y) (Hz : quartic z) :
  __add__ p x (VExt y) = __add__ p y (VExt x) /\
  (r <- __add__ p x (VExt y) ;; __add__ p r (VExt z))
  = (r <- __add__ p y (VExt z) ;; __add__ p x (VExt r)) /\
  __add__ p x (VInt 0) = Ok x /\
  (r <- __add__ p x (VExt y) ;; __sub__ p r (VExt y)) = Ok x /\
  __sub__ p y (VExt y) = __init__ p (VInt 0).
Proof.
  apply wf_elem in Hx as (c & -> & Hc).
  assert (0 < p) as Hp by (destruct c as [[[c0 c1] c2] c3]; cbv [reduced4] in Hc; lia).
  destruct (quartic_elem y Hy) as (my & cy & ->).
  destruct (quartic_elem z Hz) as (mz & cz & ->).
  assert (__init__ p (VInt 0) = Ok (elem_of p (0 mod p, 0 mod p, 0 mod p, 0 mod p)))
    as H0 by reflexivity.
  assert (forall v, __add__ p v (VInt 0) = __add__ p v (VExt (elem_of p (0, 0, 0, 0))))
    as H0' by reflexivity.
  rewrite H0, H0', !add_spec, sub_spec. cbn [bind]. rewrite !add_spec, sub_spec.
  rewrite add4_zero_r, sub4_add4, sub4_diag by assumption.
  split; [now rewrite add4_comm|]. split; [now rewrite add4_assoc|].
  repeat split.
Qed.

Lemma add_group_laws_witness :
  wf 7 (Exhaustive.elem 1 2 3 4) /\ quartic (Exhaustive.elem 5 6 0 1) /\
  (r <- __add__ 7 (Exhaustive.elem 1 2 3 4) (VExt (Exhaustive.elem 5 6 0 1)) ;;
   __sub__ 7 r (VExt (Exhaustive.elem 5 6 0 1)))
  = Ok (Exhaustive.elem 1 2 3 4).
Proof.
  assert (wf 7 (Exhaustive.elem 1 2 3 4)) as Hx.
  { apply wf_elem. exists (1, 2, 3, 4). split; [reflexivity|].
    cbv [reduced4]. lia. }
  assert (quartic (Exhaustive.elem 5 6 0 1)) as Hy by reflexivity.
  split; [exact Hx|]. split; [exact Hy|].
  exact (proj1 (proj2 (proj2 (proj2 (add_group_laws 7 _ _ _ Hx Hy Hy))))).
Defined.


(** *** Exponentiation *)

Lemma one4_reduced p : 0 < p -> reduced4 p (one4 p).
Proof.
  intros Hp. cbv [reduced4 one4].
  pose proof (Z.mod_pos_bound 1 p Hp). lia.
Qed.

Lemma pow4_reduced p ei n c : 0 < p -> reduced4 p (pow4 p ei n c).
Proof.
  intros Hp. destruct n; cbn [pow4];
    [now apply one4_reduced | now apply mul4_reduced].
Qed.

Lemma mul4_one_l p ei c : reduced4 p c -> mul4 p ei (one4 p) c = c.
Proof. intros Hc. now rewrite mul4_comm, mul4_one_r. Qed.

Lemma pow4_add p ei m n c :
  0 < p ->
  pow4 p ei (m + n) c = mul4 p ei (pow4 p ei m c) (pow4 p ei n c).
Proof.
  intros Hp. induction n as [|n IH].
  - rewrite Nat.add_0_r. cbn [pow4].
    now rewrite mul4_one_r by now apply pow4_reduced.
  - rewrite Nat.add_succ_r. cbn [pow4]. now rewrite IH, mul4_assoc.
Qed.

Lemma repeated_mul_spec p ei n m c :
  repeated_mul p ei n (elem_of m c) = Ok (elem_of p (pow4 p ei n c)).
Proof.
  induction n as [|n IH]; cbn [repeated_mul pow4].
  - apply one_spec.
  - rewrite IH. cbn [bind]. apply mul_spec.
Qed.

Lemma pow_spec p ei c e :
  reduced4 p c -> 0 <= e ->
  __pow__ p ei (elem_of p c) e = Ok (elem_of p (pow4 p ei (Z.to_nat e) c)).
Proof.
  intros Hc He.
  assert (0 < p) as Hp by (destruct c as [[[c0 c1] c2] c3]; cbv [reduced4] in Hc; lia).
  induction e as [e IH] using (well_founded_induction (Z.lt_wf 0)).
  rewrite ExtendedFieldElementFacts.pow_unfold.
  destruct (Z.eqb_spec e 0) as [->|E0]; [apply one_spec|].
  destruct (Z.eqb_spec e 1) as [->|E1].
  { change (Z.to_nat 1) with 1%nat. cbn [pow4]. now rewrite mul4_one_l. }
  destruct (Z.eqb_spec e 2) as [->|E2].
  { change (Z.to_nat 2) with 2%nat. cbn [pow4].
    now rewrite mul_spec, mul4_one_l. }
  destruct (Z.ltb_spec e 0); [lia|].
  pose proof (Z.mod_pos_bound e 2 ltac:(lia)) as B.
  assert (0 <= e / 2 < e) as Hh by (split; [apply Z.div_pos|apply Z.div_lt]; lia).
  rewrite (IH (e mod 2)) by lia. rewrite (IH (e / 2)) by lia. cbn [bind].
  rewrite ExtendedFieldElementFacts.pow_unfold. cbn [Z.eqb Pos.eqb].
  rewrite mul_spec. cbn [bind]. rewrite mul_spec.
  rewrite <- !pow4_add by assumption. do 3 f_equal.
  pose proof (Z.div_mod e 2 ltac:(lia)) as D. lia.
Qed.

(** X14.  [__pow__] computes the plain power: on a well-formed [x] and
    an exponent [e >= 0], the recursion by halving returns what [e]
    successive multiplications by [x], starting from [(1, 0, 0, 0)],
    return; so exponents add, [x ** (m + n) = x ** m * x ** n]. *)
Theorem pow_is_repeated_mul (p ei : Z) (x : t) (m n : Z)
    (Hx : wf p x) (Hm : 0 <= m) (Hn : 0 <= n) :
  __pow__ p ei x m = repeated_mul p ei (Z.to_nat m) x /\
  __pow__ p ei x (m + n)
  = (a <- __pow__ p ei x m ;; b <- __pow__ p ei x n ;; __mul__ p ei a (VExt b)).
Proof.
  apply wf_elem in Hx as (c & -> & Hc).
  assert (0 < p) as Hp by (destruct c as [[[c0 c1] c2] c3]; cbv [reduced4] in Hc; lia).
  rewrite !pow_spec by (assumption || lia). cbn [bind].
  rewrite repeated_mul_spec, mul_spec.
  split; [reflexivity|].
  now rewrite Z2Nat.inj_add, pow4_add by lia.
Qed.

Lemma pow_is_repeated_mul_witness :
  wf 7 (Exhaustive.elem 1 2 3 4) /\ 0 <= 5 /\ 0 <= 6 /\
  __pow__ 7 4 (Exhaustive.elem 1 2 3 4) 5
  = repeated_mul 7 4 (Z.to_nat 5) (Exhaustive.elem 1 2 3 4).
Proof.
  assert (wf 7 (Exhaustive.elem 1 2 3 4)) as Hx.
  { apply wf_elem. exists (1, 2, 3, 4). split; [reflexivity|].
    cbv [reduced4]. lia. }
  assert (0 <= 5) as H5 by discriminate. assert (0 <= 6) as H6 by discriminate.
  split; [exact Hx|]. split; [exact H5|]. split; [exact H6|].
  exact (proj1 (pow_is_repeated_mul 7 4 _ 5 6 Hx H5 H6)).
Defined.

(** X15.  A negative exponent never returns: [other // 2] stays
    negative, so the recursion of [__pow__] runs out of any depth and
    the call ends in [RecursionError], whatever the element. *)
Theorem pow_negative_exponent (p ei : Z) (x : t) (e : Z) (He : e < 0) :
  __pow__ p ei x e = Raise RecursionError /\
  forall depth : nat, pow_depth p ei depth x e = Raise RecursionError.
Proof.
  split; [|intros depth];
    now apply ExtendedFieldElementFacts.pow_depth_negative.
Qed.

Lemma pow_negative_exponent_witness :
  -3 < 0 /\
  __pow__ 7 4 (Exhaustive.elem 1 2 3 4) (-3) = Raise RecursionError.
Proof.
  assert (-3 < 0) as H by reflexivity.
  split; [exact H|].
  exact (proj1 (pow_negative_exponent 7 4 (Exhaustive.elem 1 2 3 4) (-3) H)).
Defined.


(** *** What the methods return *)

#[local] Abbreviation reinit p :=
  (fun a : F => FieldElement.__init__ p (FieldElement.OElem a)).

Lemma mapM_subclass_VBase p l :
  mapM (subclass p) (map VBase l) = Ok (map (reinit p) l).
Proof.
  induction l as [|a l IH]; [reflexivity|].
  cbn [map mapM subclass]. cbn [bind]. rewrite IH. reflexivity.
Qed.

Lemma of_list_eq p l :
  of_list p l =
  match l with
  | [] => Raise IndexError
  | _ :: _ => Ok (mk (map (reinit p) l) p)
  end.
Proof.
  unfold of_list, __init__, _to_list. rewrite mapM_subclass_VBase.
  destruct l; reflexivity.
Qed.

Lemma reinit_reduced p l : 0 < p -> Forall (FieldElement.reduced p) (map (reinit p) l).
Proof.
  intros Hp. induction l as [|a l IH]; constructor; [|assumption].
  unfold FieldElement.reduced; cbn. now apply Z.mod_pos_bound.
Qed.

Lemma of_list_wf p l :
  0 < p -> length l = 4%nat -> exists r, of_list p l = Ok r /\ wf p r.
Proof.
  intros Hp Hl. rewrite of_list_eq.
  destruct l as [|a l]; [discriminate|].
  eexists; split; [reflexivity|].
  split; [reflexivity|]. split.
  - unfold quartic. cbn [value]. now rewrite length_map.
  - now apply reinit_reduced.
Qed.

Lemma zip_length {A B} (l : list A) (l' : list B) :
  length (zip l l') = Nat.min (length l) (length l').
Proof.
  revert l'; induction l as [|a l IH]; intros [|b l']; cbn; auto.
Qed.

(** X16.  Every element an operation returns is well formed, whatever
    the coefficients it was built from: on a prime modulus, construction
    from four ints or from one int, [+], [-], [*] (both paths), [inv]
    and [from_bytes] all return, with four reduced coefficients and the
    modulus of the field. *)
Theorem results_well_formed (p ei : Z) (Hp : Z.prime p) (x y : t)
    (Hx : quartic x) (Hy : quartic y) (c0 c1 c2 c3 : Z) (bs : list byte) :
  (exists r, __init__ p (VList (map VInt [c0; c1; c2; c3])) = Ok r /\ wf p r) /\
  (exists r, __init__ p (VInt c0) = Ok r /\ wf p r) /\
  (exists r, __add__ p x (VExt y) = Ok r /\ wf p r) /\
  (exists r, __sub__ p x (VExt y) = Ok r /\ wf p r) /\
  (exists r, __mul__ p ei x (VExt y) = Ok r /\ wf p r) /\
  (exists r, __mul__ p ei x (VInt c0) = Ok r /\ wf p r) /\
  (exists r, inv p x = Ok r /\ wf p r) /\
  (exists r, from_bytes p bs = Ok r /\ wf p r).
Proof.
  pose proof (Z.prime_ge_2 _ Hp) as H2.
  assert (0 < p) as Hpos by lia.
  assert (forall d0 d1 d2 d3,
            wf p (elem_of p (d0 mod p, d1 mod p, d2 mod p, d3 mod p))) as Hwf.
  { intros. apply wf_elem. eexists; split; [reflexivity|].
    now apply reduced4_mods. }
  destruct (quartic_elem x Hx) as (mx & [[[x0 x1] x2] x3] & ->).
  destruct (quartic_elem y Hy) as (my & [[[y0 y1] y2] y3] & ->).
  repeat split.
  - eexists; split; [reflexivity|]. apply Hwf.
  - exists (elem_of p (c0 mod p, 0 mod p, 0 mod p, 0 mod p)).
    split; [reflexivity | apply Hwf].
  - rewrite add_spec. eexists; split; [reflexivity|]. apply Hwf.
  - rewrite sub_spec. eexists; split; [reflexivity|]. apply Hwf.
  - rewrite mul_spec. eexists; split; [reflexivity|]. apply Hwf.
  - apply of_list_wf; [assumption|reflexivity].
  - unfold inv. cbn [elem_of value unpack4 bind].
    rewrite !FieldElementFacts.pow_nonneg by lia. cbn [bind].
    rewrite !FieldElementFacts.pow_nonneg by lia. cbn [bind].
    rewrite FieldElementFacts.inv_prime
      by (try assumption; apply FieldElementFacts.of_int_reduced; lia).
    cbn [bind]. apply of_list_wf; [assumption|reflexivity].
  - eexists; split; [reflexivity|]. apply Hwf.
Qed.

Lemma results_well_formed_witness :
  Z.prime 7 /\ quartic (Exhaustive.elem 1 2 3 4) /\
  (exists r, inv 7 (Exhaustive.elem 1 2 3 4) = Ok r /\ wf 7 r).
Proof.
  assert (quartic (Exhaustive.elem 1 2 3 4)) as Hx by reflexivity.
  split; [exact FieldElementFacts.prime_7|]. split; [exact Hx|].
  destruct (results_well_formed 7 4 FieldElementFacts.prime_7 _ _ Hx Hx 0 0 0 0 [])
    as (_ & _ & _ & _ & _ & _ & H & _).
  exact H.
Defined.

(** X17.  Nothing checks that two operands have as many coefficients:
    [+] and [-] stop at the shorter operand and return an element with
    that many coefficients, and the scalar path of [*] keeps whatever
    length the element has; only the general path of [*] and [inv]
    insist, with a [ValueError], on four coefficients. *)
Theorem length_mismatch (p ei : Z) (x y : t) (n : Z)
    (Hx : value x <> []) (Hy : value y <> []) :
  (exists r, __add__ p x (VExt y) = Ok r /\
     length (value r) = Nat.min (length (value x)) (length (value y))) /\
  (exists r, __sub__ p x (VExt y) = Ok r /\
     length (value r) = Nat.min (length (value x)) (length (value y))) /\
  (exists r, __mul__ p ei x (VInt n) = Ok r /\
     length (value r) = length (value x)) /\
  (~ quartic x \/ ~ quartic y -> __mul__ p ei x (VExt y) = Raise ValueError) /\
  (~ quartic x -> inv p x = Raise ValueError).
Proof.
  destruct x as [lx mx], y as [ly my]. cbn [value] in *.
  assert (forall (f : F * F -> F),
            exists r, of_list p (map f (zip lx ly)) = Ok r /\
              length (value r) = Nat.min (length lx) (length ly)) as Hzip.
  { intros f. rewrite of_list_eq.
    destruct lx as [|a lx]; [contradiction|].
    destruct ly as [|b ly]; [contradiction|].
    cbn [zip map]. eexists; split; [reflexivity|].
    cbn [value length]. now rewrite !length_map, zip_length. }
  split; [apply Hzip|]. split; [apply Hzip|].
  split.
  { cbn [__mul__]. unfold mul_scalar. rewrite of_list_eq. cbn [value].
    destruct lx as [|a lx]; [contradiction|].
    cbn [map]. eexists; split; [reflexivity|].
    cbn [value length]. now rewrite !length_map. }
  unfold quartic; cbn [value]. split.
  - intros [H|H].
    + destruct lx as [|? [|? [|? [|? [|? ?]]]]]; try reflexivity.
      now contradiction H.
    + destruct lx as [|? [|? [|? [|? [|? ?]]]]]; try reflexivity.
      destruct ly as [|? [|? [|? [|? [|? ?]]]]]; try reflexivity.
      now contradiction H.
  - intros H.
    destruct lx as [|? [|? [|? [|? [|? ?]]]]]; try reflexivity.
    now contradiction H.
Qed.

Lemma length_mismatch_witness :
  value (mk [BB 1; BB 2] 7) <> [] /\ value (Exhaustive.elem 1 2 3 4) <> [] /\
  (exists r, __add__ 7 (mk [BB 1; BB 2] 7) (VExt (Exhaustive.elem 1 2 3 4)) = Ok r /\
     length (value r) = 2%nat) /\
  ~ quartic (mk [BB 1; BB 2] 7) /\
  __mul__ 7 4 (mk [BB 1; BB 2] 7) (VExt (Exhaustive.elem 1 2 3 4))
  = Raise ValueError.
Proof.
  assert (value (mk [BB 1; BB 2] 7) <> []) as Hx by discriminate.
  assert (value (Exhaustive.elem 1 2 3 4) <> []) as Hy by discriminate.
  assert (~ quartic (mk [BB 1; BB 2] 7)) as Hq by discriminate.
  destruct (length_mismatch 7 4 _ _ 0 Hx Hy) as (Ha & _ & _ & Hm & _).
  split; [exact Hx|]. split; [exact Hy|]. split; [exact Ha|].
  split; [exact Hq|]. apply Hm. left. exact Hq.
Defined.


(** *** Equality *)

Lemma list_eq_iff (l l' : list F) :
  list_eq (fun a b => FieldElement.__eq__ a (FieldElement.OElem b)) l l' = true
  <-> l = l'.
Proof.
  split.
  - revert l'; induction l as [|[a] l IH]; intros [|[b] l']; cbn;
      try discriminate; [reflexivity|].
    intros H. apply andb_true_iff in H as [Hab Hl].
    unfold FieldElement.__eq__ in Hab. cbn in Hab.
    apply Z.eqb_eq in Hab. subst b. f_equal. now apply IH.
  - intros <-. apply ExtendedFieldElementFacts.list_eq_refl.
Qed.

(** X18.  [==] on extension elements compares the coefficient lists:
    two elements are equal exactly when their coefficients are, and an
    int [n] is first embedded and reduced, so [x == n] holds exactly
    when the coefficients of [x] are [(n mod p, 0, 0, 0)]; an operand
    [_to_list] does not accept makes [==] raise instead of answering
    [False]. *)
Theorem eq_compares_coefficients (p : Z) (x y : t) (n : Z) :
  (__eq__ p x (VExt y) = Ok true <-> value x = value y) /\
  (__eq__ p x (VInt n) = Ok true <->
     value x = [FieldElement.mk (n mod p); FieldElement.mk 0;
                FieldElement.mk 0; FieldElement.mk 0]) /\
  __eq__ p x (VInt n) = __eq__ p x (VInt (n mod p)) /\
  __eq__ p x VNone = Raise Exception_.
Proof.
  assert (forall l, Ok (list_eq (fun a b => FieldElement.__eq__ a (FieldElement.OElem b))
                          (value x) l) = Ok true <-> value x = l) as H.
  { intros l. rewrite <- list_eq_iff. split; [now intros [= ->]|now intros ->]. }
  split; [apply H|]. split; [apply H|]. split; [|reflexivity].
  unfold __eq__, _to_list, FieldElement.of_int, FieldElement.__init__.
  cbn [FieldElement.othervalue]. now rewrite Zmod_mod.
Qed.

(** *** Zero and division *)

Create Rewrite HintDb zeros.
#[local] Hint Rewrite Zmod_0_l Z.mul_0_r Z.mul_0_l Z.sub_0_r Z.add_0_r Z.add_0_l
  Z.sub_diag Z.opp_0 Z.pow_0_l : zeros.

(** Evaluates base-field arithmetic whose operands are all zero. *)
Ltac fe_zero Hp :=
  rewrite ?(FieldElementAlgebra.neg_eq _ _ Hp);
  unfold FieldElement.__add__, FieldElement.__sub__, FieldElement.__mul__,
    FieldElement.of_int, FieldElement.__init__;
  cbn [FieldElement.value FieldElement.othervalue];
  autorewrite with zeros; try reflexivity.

Lemma list4_eq {A} (a b c d a' b' c' d' : A) :
  a = a' -> b = b' -> c = c' -> d = d' -> [a; b; c; d] = [a'; b'; c'; d'].
Proof. now intros -> -> -> ->. Qed.

Lemma FieldElement_inv_zero p a :
  FieldElement.value a = 0 -> FieldElement.inv p a = Ok (FieldElement.mk 0).
Proof. unfold FieldElement.inv. now intros ->. Qed.

(** X19.  Zero is not special-cased: on a positive modulus [inv] of the
    zero element returns the zero element, and dividing a
    four-coefficient element by zero, given as an int or as an element,
    returns the zero element; neither raises. *)
Theorem zero_inverse_and_division (p ei : Z) (Hp : 0 < p) (x : t)
    (Hx : quartic x) :
  inv p (elem_of p (0, 0, 0, 0)) = Ok (elem_of p (0, 0, 0, 0)) /\
  __truediv__ p ei x (VInt 0) = Ok (elem_of p (0, 0, 0, 0)) /\
  __truediv__ p ei x (VExt (elem_of p (0, 0, 0, 0))) = Ok (elem_of p (0, 0, 0, 0)).
Proof.
  destruct (quartic_elem x Hx) as (mx & [[[x0 x1] x2] x3] & ->).
  assert (forall o : t,
            value o = [FieldElement.mk 0; FieldElement.mk 0;
                       FieldElement.mk 0; FieldElement.mk 0] ->
            (if list_eq (fun v n => FieldElement.__eq__ v (FieldElement.OInt n))
                  (tl (value o)) [0; 0; 0]
             then factor <- FieldElement.inv p
                              (hd (FieldElement.of_int p 0) (value o)) ;;
                  of_list p (map (fun v => FieldElement.__mul__ p v
                                             (FieldElement.OElem factor))
                               (value (elem_of mx (x0, x1, x2, x3))))
             else i <- inv p o ;; __mul__ p ei (elem_of mx (x0, x1, x2, x3)) (VExt i))
            = Ok (elem_of p (0, 0, 0, 0))) as Hdiv.
  { intros o ->. cbn [tl hd list_eq FieldElement.__eq__ FieldElement.value
                      FieldElement.othervalue Z.eqb andb].
    rewrite FieldElement_inv_zero by reflexivity. cbn [bind].
    rewrite of_list_eq. cbn [elem_of value map]. unfold elem_of.
    do 2 f_equal. apply list4_eq; fe_zero Hp. }
  split; [|split].
  - unfold inv. cbn [elem_of value unpack4 bind].
    rewrite !FieldElementFacts.pow_nonneg by lia. cbn [bind].
    rewrite !FieldElementFacts.pow_nonneg by lia. cbn [bind].
    rewrite FieldElement_inv_zero by (fe_zero Hp). cbn [bind].
    rewrite of_list_eq. cbn [map]. do 2 f_equal.
    apply list4_eq; fe_zero Hp.
  - unfold __truediv__. cbn [_to_list app repeat bind].
    rewrite of_list_eq. cbn [map bind]. apply Hdiv.
    cbn [value]. apply list4_eq; fe_zero Hp.
  - unfold __truediv__. cbn [_to_list elem_of value bind].
    rewrite of_list_eq. cbn [map bind]. apply Hdiv.
    cbn [value]. apply list4_eq; fe_zero Hp.
Qed.

Lemma zero_inverse_and_division_witness :
  0 < 7 /\ quartic (Exhaustive.elem 1 2 3 4) /\
  inv 7 (elem_of 7 (0, 0, 0, 0)) = Ok (elem_of 7 (0, 0, 0, 0)) /\
  __truediv__ 7 4 (Exhaustive.elem 1 2 3 4) (VInt 0) = Ok (elem_of 7 (0, 0, 0, 0)).
Proof.
  assert (0 < 7) as Hp by reflexivity.
  assert (quartic (Exhaustive.elem 1 2 3 4)) as Hx by reflexivity.
  destruct (zero_inverse_and_division 7 4 Hp _ Hx) as (H1 & H2 & _).
  split; [exact Hp|]. split; [exact Hx|]. split; assumption.
Defined.

(** X20.  Division by a scalar undoes multiplication by it: on a prime
    modulus, for a well-formed [x] and an int [b] not divisible by the
    modulus, [(x / b) * b] and [(x * b) / b] are both [x]. *)
Theorem scalar_division_cancels (p ei : Z) (Hp : Z.prime p) (x : t) (b : Z)
    (Hx : wf p x) (Hb : b mod p <> 0) :
  (q <- __truediv__ p ei x (VInt b) ;; __mul__ p ei q (VInt b)) = Ok x /\
  (q <- __mul__ p ei x (VInt b) ;; __truediv__ p ei q (VInt b)) = Ok x.
Proof.
  pose proof (Z.prime_ge_2 _ Hp) as H2.
  apply wf_elem in Hx as ([[[x0 x1] x2] x3] & -> & Hc).
  pose proof (Z.mod_pos_bound b p ltac:(lia)) as Hbp.
  assert (FieldElement.inv p (FieldElement.mk ((b mod p) mod p))
          = Ok (FieldElement.mk (Z.invmod (b mod p) p))) as Hinv.
  { rewrite Zmod_mod, FieldElementFacts.inv_prime
      by (try assumption; unfold FieldElement.reduced; cbn; lia).
    cbn [FieldElement.value].
    destruct (Z.eqb_spec (b mod p) 0); [contradiction|reflexivity]. }
  assert ((b mod p * Z.invmod (b mod p) p) mod p = 1) as Hi
    by (apply FieldElementFacts.invmod_inverse; [assumption|lia]).
  set (i := Z.invmod (b mod p) p) in *. clearbody i.
  assert (forall v, cong p (v * i * b) v) as Hc1.
  { intros v.
    transitivity (v * ((b mod p * i) mod p)); [cong_ring|].
    rewrite Hi. cong_ring. }
  assert (forall v, cong p (v * b * i) v) as Hc2.
  { intros v. rewrite <- (Hc1 v) at 2. apply cong_of_eq; ring. }
  rewrite (reduced4_mod p x0 x1 x2 x3 Hc) at 2 4.
  split.
  - unfold __truediv__. cbn [_to_list app repeat bind].
    rewrite of_list_eq. cbn [map bind value tl hd list_eq].
    unfold FieldElement.of_int, FieldElement.__init__, FieldElement.__eq__.
    cbn [FieldElement.othervalue FieldElement.value Z.modulo Z.div_eucl Z.eqb andb].
    rewrite Hinv. cbn [bind].
    ext_eval. f_equal. apply elem_cong; rewrite !cong_mod; apply Hc1.
  - unfold __truediv__. cbn [__mul__]. unfold mul_scalar.
    rewrite of_list_eq. cbn [elem_of value map bind _to_list app repeat].
    rewrite of_list_eq. cbn [map bind value tl hd list_eq].
    unfold FieldElement.of_int, FieldElement.__init__, FieldElement.__eq__.
    cbn [FieldElement.othervalue FieldElement.value Z.modulo Z.div_eucl Z.eqb andb].
    rewrite Hinv. cbn [bind].
    ext_eval. f_equal. apply elem_cong; rewrite !cong_mod; apply Hc2.
Qed.

Lemma scalar_division_cancels_witness :
  Z.prime 7 /\ wf 7 (Exhaustive.elem 1 2 3 4) /\ 10 mod 7 <> 0 /\
  (q <- __truediv__ 7 4 (Exhaustive.elem 1 2 3 4) (VInt 10) ;;
   __mul__ 7 4 q (VInt 10)) = Ok (Exhaustive.elem 1 2 3 4).
Proof.
  assert (wf 7 (Exhaustive.elem 1 2 3 4)) as Hx.
  { apply wf_elem. exists (1, 2, 3, 4). split; [reflexivity|].
    cbv [reduced4]. lia. }
  assert (10 mod 7 <> 0) as Hb by discriminate.
  split; [exact FieldElementFacts.prime_7|]. split; [exact Hx|].
  split; [exact Hb|].
  exact (proj1 (scalar_division_cancels 7 4 FieldElementFacts.prime_7 _ 10 Hx Hb)).
Defined.


(** *** The toy instance, by enumeration *)

Lemma elem_eqb_refl x : Exhaustive.elem_eqb x x = true.
Proof.
  destruct x as [l m]. unfold Exhaustive.elem_eqb. cbn [value modulus].
  rewrite Z.eqb_refl, andb_true_r.
  induction l as [|a l IH]; cbn; [reflexivity|].
  now rewrite Z.eqb_refl, IH.
Qed.

Lemma is_elem_iff r y : Exhaustive.is_elem r y = true <-> r = Ok y.
Proof.
  split; [apply ExtendedFieldElementFacts.is_elem_eq|].
  intros ->. apply elem_eqb_refl.
Qed.

Lemma result_eqb_eq r r' : ExhaustiveMore.result_eqb r r' = true -> r = r'.
Proof.
  destruct r as [a|], r' as [b|]; cbn; try discriminate.
  intros H. now rewrite (ExtendedFieldElementFacts.elem_eqb_eq _ _ H).
Qed.

Lemma inv_exact_check_true : ExhaustiveMore.inv_exact_check = true.
Proof. vm_compute. reflexivity. Qed.

Lemma div_scalar_check_true : ExhaustiveMore.div_scalar_check = true.
Proof. vm_compute. reflexivity. Qed.

(** X21.  How far [inv] is an inverse in the instance with modulus 7
    and tower constant 4: for a nonzero element [x] with reduced
    coefficients, [x * x.inv()] is [(1, 0, 0, 0)] if and only if
    [c2 = c3 = 0]. *)
Theorem toy_inverse_exact (c0 c1 c2 c3 : Z)
    (H0 : 0 <= c0 < 7) (H1 : 0 <= c1 < 7) (H2 : 0 <= c2 < 7) (H3 : 0 <= c3 < 7)
    (Hnz : c0 <> 0 \/ c1 <> 0 \/ c2 <> 0 \/ c3 <> 0) :
  (i <- inv 7 (Exhaustive.elem c0 c1 c2 c3) ;;
   __mul__ 7 4 (Exhaustive.elem c0 c1 c2 c3) (VExt i))
  = Ok (Exhaustive.elem 1 0 0 0)
  <-> c2 = 0 /\ c3 = 0.
Proof.
  pose proof (ExtendedFieldElementFacts.for_all4_spec _ _ _ _ _ inv_exact_check_true
                (ExtendedFieldElementFacts.In_residues _ H0)
                (ExtendedFieldElementFacts.In_residues _ H1)
                (ExtendedFieldElementFacts.In_residues _ H2)
                (ExtendedFieldElementFacts.In_residues _ H3)) as H.
  cbv beta in H. apply orb_true_iff in H as [Hz|H].
  { apply ExtendedFieldElementFacts.is_zero_eq in Hz. lia. }
  apply Bool.eqb_prop in H.
  change (Exhaustive.mul_inv 4 (Exhaustive.elem c0 c1 c2 c3)
          = Ok (Exhaustive.elem 1 0 0 0) <-> c2 = 0 /\ c3 = 0).
  rewrite <- is_elem_iff.
  change ExtendedBabyMersenneElement.extension_i with 4 in H. rewrite H.
  now rewrite andb_true_iff, !Z.eqb_eq.
Qed.

Lemma toy_inverse_exact_witness :
  0 <= 1 < 7 /\ 0 <= 2 < 7 /\ 0 <= 0 < 7 /\
  (1 <> 0 \/ 2 <> 0 \/ 0 <> 0 \/ 0 <> 0) /\
  ((i <- inv 7 (Exhaustive.elem 1 2 0 0) ;;
    __mul__ 7 4 (Exhaustive.elem 1 2 0 0) (VExt i))
   = Ok (Exhaustive.elem 1 0 0 0)
   <-> 0 = 0 /\ 0 = 0).
Proof.
  assert (0 <= 1 < 7) as H1 by lia. assert (0 <= 2 < 7) as H2 by lia.
  assert (0 <= 0 < 7) as H0 by lia.
  assert (1 <> 0 \/ 2 <> 0 \/ 0 <> 0 \/ 0 <> 0) as Hnz by (left; discriminate).
  split; [exact H1|]. split; [exact H2|]. split; [exact H0|].
  split; [exact Hnz|].
  exact (toy_inverse_exact 1 2 0 0 H1 H2 H0 H0 Hnz).
Defined.

(** X22.  In the same instance the two branches of [__truediv__] agree:
    for every element [x] and every scalar [y = (b, 0, 0, 0)], zero
    included, the shortcut taken by [x / y] returns what [x * y.inv()]
    returns. *)
Theorem toy_division_by_scalar (c0 c1 c2 c3 b : Z)
    (H0 : 0 <= c0 < 7) (H1 : 0 <= c1 < 7) (H2 : 0 <= c2 < 7) (H3 : 0 <= c3 < 7)
    (Hb : 0 <= b < 7) :
  __truediv__ 7 4 (Exhaustive.elem c0 c1 c2 c3) (VExt (Exhaustive.elem b 0 0 0))
  = (i <- inv 7 (Exhaustive.elem b 0 0 0) ;;
     __mul__ 7 4 (Exhaustive.elem c0 c1 c2 c3) (VExt i)).
Proof.
  pose proof (ExtendedFieldElementFacts.for_all4_spec _ _ _ _ _ div_scalar_check_true
                (ExtendedFieldElementFacts.In_residues _ H0)
                (ExtendedFieldElementFacts.In_residues _ H1)
                (ExtendedFieldElementFacts.In_residues _ H2)
                (ExtendedFieldElementFacts.In_residues _ H3)) as H.
  cbv beta in H. rewrite forallb_forall in H.
  specialize (H b (ExtendedFieldElementFacts.In_residues _ Hb)).
  exact (result_eqb_eq _ _ H).
Qed.

Lemma toy_division_by_scalar_witness :
  0 <= 1 < 7 /\ 0 <= 2 < 7 /\ 0 <= 3 < 7 /\ 0 <= 4 < 7 /\ 0 <= 5 < 7 /\
  __truediv__ 7 4 (Exhaustive.elem 1 2 3 4) (VExt (Exhaustive.elem 5 0 0 0))
  = (i <- inv 7 (Exhaustive.elem 5 0 0 0) ;;
     __mul__ 7 4 (Exhaustive.elem 1 2 3 4) (VExt i)).
Proof.
  assert (0 <= 1 < 7) as H1 by lia. assert (0 <= 2 < 7) as H2 by lia.
  assert (0 <= 3 < 7) as H3 by lia. assert (0 <= 4 < 7) as H4 by lia.
  assert (0 <= 5 < 7) as H5 by lia.
  split; [exact H1|]. split; [exact H2|]. split; [exact H3|].
  split; [exact H4|]. split; [exact H5|].
  exact (toy_division_by_scalar 1 2 3 4 5 H1 H2 H3 H4 H5).
Defined.

(** *** Decoding sixteen bytes *)

Lemma slice_firstn16 (bs : list byte) i :
  (i + 4 <= 16)%nat ->
  Builtins.slice (firstn 16 bs) i (i + 4) = Builtins.slice bs i (i + 4).
Proof.
  intros Hi. unfold Builtins.slice.
  rewrite skipn_firstn_comm, firstn_firstn.
  f_equal. lia.
Qed.

(** X23.  [from_bytes] of the extension never fails and reads the first
    sixteen bytes only: on a positive modulus any byte string decodes to
    a well-formed element, bytes past the sixteenth are ignored, and
    missing bytes count as zero, the empty string giving the zero
    element. *)
Theorem from_bytes_total (p : Z) (Hp : 0 < p) (bs : list byte) :
  (exists r, from_bytes p bs = Ok r /\ wf p r) /\
  from_bytes p (firstn 16 bs) = from_bytes p bs /\
  from_bytes p [] = Ok (elem_of p (0, 0, 0, 0)).
Proof.
  split; [|split].
  - exists (elem_of p
              (Builtins.int_from_bytes (Builtins.slice bs 0 4) mod p,
               Builtins.int_from_bytes (Builtins.slice bs 4 8) mod p,
               Builtins.int_from_bytes (Builtins.slice bs 8 12) mod p,
               Builtins.int_from_bytes (Builtins.slice bs 12 16) mod p)).
    split; [reflexivity|].
    apply wf_elem. eexists; split; [reflexivity|]. now apply reduced4_mods.
  - unfold from_bytes. cbn [map].
    change 4%nat with (0 + 4)%nat at 1 3.
    now rewrite !slice_firstn16 by lia.
  - reflexivity.
Qed.

Lemma from_bytes_total_witness :
  0 < 7 /\
  (exists r, from_bytes 7 [x09; x01] = Ok r /\ wf 7 r) /\
  from_bytes 7 [] = Ok (elem_of 7 (0, 0, 0, 0)).
Proof.
  assert (0 < 7) as Hp by reflexivity.
  destruct (from_bytes_total 7 Hp [x09; x01]) as (H1 & _ & _).
  split; [exact Hp|]. split; [exact H1|].
  exact (proj2 (proj2 (from_bytes_total 7 Hp []))).
Defined.

End ExtendedFieldElementAlgebra.

(** ** The circle group helpers *)

Module CircleGroupFacts.
Import FieldElement CircleGroup Reference Congruence FieldElementAlgebra.

Lemma on_circle_cong p x y :
  on_circle p (mk x, mk y) = true -> cong p (x * x + y * y) 1.
Proof.
  unfold on_circle, __eq__. rewrite Z.eqb_eq. fe_unfold. intros H.
  rewrite <- H. cong_ring.
Qed.

Lemma cong_on_circle p x y E :
  on_circle p (mk x, mk y) = true -> cong p E 1 -> E mod p = 1.
Proof.
  unfold on_circle, __eq__. rewrite Z.eqb_eq. fe_unfold. intros H HE.
  assert (1 mod p = 1) as E1.
  { match type of H with
    | ?X mod _ = 1 =>
        pose proof (fun Hp => Z.mod_pos_bound X p Hp) as B1;
        pose proof (fun Hp => Z.mod_neg_bound X p Hp) as B2
    end.
    destruct (Z.lt_trichotomy p 0) as [N|[->|P]].
    - specialize (B2 N). lia.
    - apply Z.mod_0_r.
    - apply Z.mod_small. specialize (B1 P). lia. }
  unfold cong in HE. now rewrite HE.
Qed.

Lemma cong_step p a b c : a = b -> cong p b c -> cong p a c.
Proof. now intros ->. Qed.

Lemma mk_cong_small p X v : 0 <= v < p -> cong p X v -> mk (X mod p) = mk v.
Proof.
  unfold cong. intros Hv H. f_equal. rewrite H. now apply Z.mod_small.
Qed.

Ltac cong_ring' :=
  try (rewrite_strat (topdown cong_mod)); apply cong_of_eq; ring.

Ltac circle_unfold :=
  unfold point_add, point_double, on_circle, __eq__; fe_unfold.

(** X24.  The helpers stay on the unit circle: if both points satisfy
    [x * x + y * y == 1] then so does [point_add] of them and so does
    [point_double]; and on the circle [point_double(pt)] is
    [point_add(pt, pt)]. *)
Theorem circle_closed (p : Z) (pt1 pt2 : t * t)
    (H1 : on_circle p pt1 = true) (H2 : on_circle p pt2 = true) :
  on_circle p (point_add p pt1 pt2) = true /\
  on_circle p (point_double p pt1) = true /\
  point_double p pt1 = point_add p pt1 pt1.
Proof.
  destruct pt1 as [[x1] [y1]], pt2 as [[x2] [y2]].
  pose proof (on_circle_cong p x1 y1 H1) as C1.
  pose proof (on_circle_cong p x2 y2 H2) as C2.
  assert (cong p (2 * (x1 * x1)) (1 + (x1 * x1 - y1 * y1))) as Cd.
  { apply (cong_step p _ ((x1 * x1 + y1 * y1) + (x1 * x1 - y1 * y1))); [ring|]. now rewrite C1. }
  split; [|split].
  - circle_unfold. apply Z.eqb_eq.
    apply (cong_on_circle p x1 y1 _ H1). rewrite_strat (topdown cong_mod).
    apply (cong_step p _ ((x1 * x1 + y1 * y1) * (x2 * x2 + y2 * y2))); [ring|].
    rewrite C1, C2. reflexivity.
  - circle_unfold. apply Z.eqb_eq.
    apply (cong_on_circle p x1 y1 _ H1). rewrite_strat (topdown cong_mod).
    apply (cong_step p _ (4 * (x1 * x1) * ((x1 * x1 + y1 * y1) - 1) + 1)); [ring|].
    rewrite C1. apply cong_of_eq; ring.
  - circle_unfold. f_equal; apply mk_cong; rewrite_strat (topdown cong_mod).
    + apply (cong_step p _ (2 * (x1 * x1) - 1)); [ring|].
      rewrite Cd. apply cong_of_eq; ring.
    + apply cong_of_eq; ring.
Qed.

Lemma circle_closed_witness :
  on_circle 7 (BB 2, BB 2) = true /\ on_circle 7 (BB 0, BB 1) = true /\
  on_circle 7 (point_add 7 (BB 2, BB 2) (BB 0, BB 1)) = true /\
  point_double 7 (BB 2, BB 2) = point_add 7 (BB 2, BB 2) (BB 2, BB 2).
Proof.
  assert (on_circle 7 (BB 2, BB 2) = true) as H1 by reflexivity.
  assert (on_circle 7 (BB 0, BB 1) = true) as H2 by reflexivity.
  destruct (circle_closed 7 _ _ H1 H2) as (Ha & _ & Hd).
  split; [exact H1|]. split; [exact H2|]. split; assumption.
Defined.

(** X25.  [point_add] is a group law: it is commutative and
    associative on all points; [(1, 0)] is neutral on a point with
    reduced coordinates; and, on a positive modulus, [(x, -y)] is the
    opposite of a point [(x, y)] of the circle. *)
Theorem circle_group_laws (p : Z) (pt1 pt2 pt3 : t * t) :
  point_add p pt1 pt2 = point_add p pt2 pt1 /\
  point_add p (point_add p pt1 pt2) pt3
    = point_add p pt1 (point_add p pt2 pt3) /\
  (reduced p (fst pt1) -> reduced p (snd pt1) ->
   point_add p pt1 (of_int p 1, of_int p 0) = pt1) /\
  (0 < p -> on_circle p pt1 = true ->
   point_add p pt1 (fst pt1, __neg__ p (snd pt1)) = (of_int p 1, of_int p 0)).
Proof.
  destruct pt1 as [[x1] [y1]], pt2 as [[x2] [y2]], pt3 as [[x3] [y3]].
  cbn [fst snd].
  split; [|split; [|split]].
  - circle_unfold. f_equal; apply mk_cong; cong_ring'.
  - circle_unfold. f_equal; apply mk_cong; cong_ring'.
  - intros Hx Hy.
    circle_unfold. f_equal; apply mk_cong_small; try assumption; cong_ring'.
  - intros Hp H1. pose proof (on_circle_cong p x1 y1 H1) as C1.
    rewrite neg_eq by assumption. cbn [value].
    circle_unfold. f_equal; apply mk_cong; rewrite_strat (topdown cong_mod).
    + apply (cong_step p _ (x1 * x1 + y1 * y1)); [ring|exact C1].
    + apply cong_of_eq; ring.
Qed.

Lemma circle_group_laws_witness :
  reduced 7 (BB 2) /\ 0 < 7 /\ on_circle 7 (BB 2, BB 2) = true /\
  point_add 7 (BB 3, BB 5) (BB 6, BB 4) = point_add 7 (BB 6, BB 4) (BB 3, BB 5) /\
  point_add 7 (BB 2, BB 2) (of_int 7 1, of_int 7 0) = (BB 2, BB 2) /\
  point_add 7 (BB 2, BB 2) (BB 2, __neg__ 7 (BB 2)) = (of_int 7 1, of_int 7 0).
Proof.
  assert (reduced 7 (BB 2)) as Hr
    by (apply FieldElementFacts.of_int_reduced; reflexivity).
  assert (0 < 7) as Hp by reflexivity.
  assert (on_circle 7 (BB 2, BB 2) = true) as H1 by reflexivity.
  destruct (circle_group_laws 7 (BB 2, BB 2) (BB 0, BB 1) (BB 0, BB 1))
    as (_ & _ & Hi & Hn).
  split; [exact Hr|]. split; [exact Hp|]. split; [exact H1|].
  split; [exact (proj1 (circle_group_laws 7 (BB 3, BB 5) (BB 6, BB 4) (BB 0, BB 1)))|].
  split; [exact (Hi Hr Hr) | exact (Hn Hp H1)].
Defined.

End CircleGroupFacts.
